(** * Weather Subscription API: authorizer and API-token lifecycle

    A shallow embedding of the two Lambda handlers that make up the
    authentication core of the application:

    - [apps/api/src/tokens/index.ts]: issue, list and revoke API tokens;
    - the custom authorizer (a TOKEN authorizer of API Gateway): classifies
      the credential by its prefix and validates either a Cognito JWT or an
      opaque [wea_] API key.

    The functions around that core follow, on tables of their own:
    [apps/api/src/subscriptions/index.ts] (create, list and delete
    subscriptions, the first weather fetch), [apps/api/src/weather/index.ts]
    (the latest weather of a subscription), the scheduled weather fetch,
    and [processForecastData], which both fetches use.

    Modelling conventions.

    - The DynamoDB table of API tokens is a finite map from the primary key
      [id] to the stored [ApiToken]; the document client is a table that
      keeps the defined attributes of each item.
    - What a handler does to the outside world is recorded: every command
      sent to the document client, every call of the JWT verifier and every
      console line is appended to the [io] log of the [World].
    - A JavaScript exception is a value [Throw e]; [try]/[catch] is the
      combinator [try_catch].
    - Library functions whose code is not part of the repository (SHA-256,
      the Cognito JWT verifier, [JSON.parse]) are variables of a section:
      every theorem holds for any such functions.
    - Strings are byte strings; numbers that the code uses as integers
      (Unix seconds, milliseconds, a number of days) are in [Z]. *)

From stdpp Require Import gmap strings list fin_maps.
From Stdlib Require Import ZArith Ascii String.
From Stdlib Require QArith DecimalString.
From stdpp Require Import sorting.

Local Open Scope Z_scope.
Local Open Scope string_scope.

(** ** JavaScript values, exceptions and strings *)

Module Js.

(** The JavaScript values that occur in the response bodies. *)
#[warnings="-register-all"]
Inductive jsval : Type :=
| JUndefined
| JNull
| JBool (b : bool)
| JNum (n : Z)
| JStr (s : string)
| JArr (xs : list jsval)
| JObj (fields : list (string * jsval)).

(** A thrown value: an [Error] with its message, or anything else. *)
Inductive exn : Type :=
| Error (message : string)
| NonError.

Inductive result (A : Type) : Type :=
| Ok (a : A)
| Throw (e : exn).
Arguments Ok {A} a.
Arguments Throw {A} e.

(** [error instanceof Error ? error.message : 'Unknown error'] *)
Definition message_of (e : exn) : string :=
  match e with
  | Error m => m
  | NonError => "Unknown error"
  end.

(** [s.startsWith(p)] *)
Definition startsWith (s p : string) : bool := String.prefix p s.

(** [s.substring(n)] *)
Fixpoint substring_from (n : nat) (s : string) : string :=
  match n, s with
  | O, _ => s
  | S n', EmptyString => EmptyString
  | S n', String _ s' => substring_from n' s'
  end.

(** [s.substring(0, n)] *)
Definition substring_to (n : nat) (s : string) : string :=
  String.substring 0 n s.

(** White space removed by [trim], within ASCII: TAB, LF, VT, FF, CR and
    the space. *)
Definition is_space (c : ascii) : bool :=
  let n := nat_of_ascii c in
  ((9 <=? n)%nat && (n <=? 13)%nat) || (n =? 32)%nat.

Fixpoint trim_start (s : string) : string :=
  match s with
  | EmptyString => EmptyString
  | String c s' => if is_space c then trim_start s' else s
  end.

(** Drops the trailing white space: a character is kept when it is not a
    space or when something is left after it. *)
Fixpoint trim_end (s : string) : string :=
  match s with
  | EmptyString => EmptyString
  | String c s' =>
      match trim_end s' with
      | EmptyString => if is_space c then EmptyString else String c EmptyString
      | r => String c r
      end
  end.

(** [s.trim()] *)
Definition trim (s : string) : string := trim_end (trim_start s).

(** [const { k: _, ...rest } = obj]: the own properties of [obj] but [k]. *)
Definition omit (k : string) (fields : list (string * jsval))
  : list (string * jsval) :=
  List.filter (fun kv => negb (String.eqb k (fst kv))) fields.

(** The document [JSON.stringify] writes for a value: a property whose
    value is [undefined] is left out, an [undefined] element of an array
    becomes [null]. The body of a response is kept as this document. *)
Fixpoint stringify (v : jsval) : jsval :=
  match v with
  | JArr xs =>
      JArr (List.map (fun x => match x with
                               | JUndefined => JNull
                               | _ => stringify x
                               end) xs)
  | JObj fields =>
      JObj ((fix props (l : list (string * jsval)) :=
               match l with
               | [] => []
               | (k, x) :: l' =>
                   match x with
                   | JUndefined => props l'
                   | _ => (k, stringify x) :: props l'
                   end
               end) fields)
  | _ => v
  end.

(** Does a property named [k] occur anywhere inside the value? *)
Fixpoint has_field (k : string) (v : jsval) : bool :=
  match v with
  | JArr xs => List.existsb (has_field k) xs
  | JObj fields =>
      List.existsb (fun kv => let '(k', x) := kv in
                              String.eqb k k' || has_field k x) fields
  | _ => false
  end.

(** The value of the own property [k] of an object. *)
Fixpoint get_field (k : string) (fields : list (string * jsval))
  : option jsval :=
  match fields with
  | [] => None
  | (k', x) :: l => if String.eqb k k' then Some x else get_field k l
  end.

End Js.
Export Js.

(** ** The table of API tokens and the document client *)

Module Dynamo.

(** [tokens/types.ts], [interface ApiToken]. *)
Record ApiToken : Type := {
  id : string;
  userId : string;
  tokenHash : string;
  name : string;
  prefix : string;
  createdAt : string;
  lastUsedAt : option string;
  expiresAt : option Z;
  revoked : bool
}.

(** The update [SET revoked = :revoked] with [:revoked = true]. *)
Definition set_revoked (t : ApiToken) : ApiToken :=
  {| id := id t; userId := userId t; tokenHash := tokenHash t;
     name := name t; prefix := prefix t; createdAt := createdAt t;
     lastUsedAt := lastUsedAt t; expiresAt := expiresAt t;
     revoked := true |}.

(** The commands the handlers send to the document client. *)
Inductive Command : Type :=
| PutCommand (Item : ApiToken)
| GetCommand (Key : string)
| QueryTokenHashIndex (hash : string)
| QueryUserIdIndex (user : string)
| UpdateRevoked (Key : string).

(** What a command returns. *)
Inductive Output : Type :=
| PutOutput
| GetOutput (Item : option ApiToken)
| QueryOutput (Items : list ApiToken)
| UpdateOutput.

(** What a handler does to the outside world, in the order it does it. *)
Inductive IO : Type :=
| ConsoleLog (label : string)
| ConsoleError (label : string) (e : exn)
| DbSend (c : Command)
| JwtVerify (token : string).

(** The table (primary key [id]) and the log of what was done. *)
Record World : Type := {
  table : gmap string ApiToken;
  io : list IO
}.

(** What one invocation finds outside of the table: the bytes of
    [randomBytes(32)] already encoded as base64url, the UUID of [uuidv4()],
    the clock ([Date.now()], and [new Date().toISOString()]), and the
    failure, if any, the persistence layer answers a command with. *)
Record Env : Type := {
  randomPart : string;
  uuid : string;
  nowMs : Z;
  nowISO : string;
  dbFault : Command -> option exn
}.

(** Computations of a handler: they read and change the world, and return
    or throw. What was done before a throw stays done. *)
Definition M (A : Type) : Type := World -> result A * World.

Definition ret {A} (a : A) : M A := fun w => (Ok a, w).

Definition throw {A} (e : exn) : M A := fun w => (Throw e, w).

Definition bind {A B} (m : M A) (k : A -> M B) : M B :=
  fun w => match m w with
           | (Ok a, w') => k a w'
           | (Throw e, w') => (Throw e, w')
           end.

(** [try { m } catch (error) { h error }] *)
Definition try_catch {A} (m : M A) (h : exn -> M A) : M A :=
  fun w => match m w with
           | (Ok a, w') => (Ok a, w')
           | (Throw e, w') => h e w'
           end.

Definition emit (e : IO) : M unit :=
  fun w => (Ok tt, {| table := table w; io := io w ++ [e] |}).

Definition scan (P : ApiToken -> bool) (t : gmap string ApiToken)
  : list ApiToken :=
  (map_to_list (filter (fun kv => P (snd kv) = true) t)).*2.

(** The effect of a command on the table, and its answer. [PutCommand]
    replaces the item that has the same key. The two queries go through
    the secondary indexes on [tokenHash] and on [userId]. [UpdateRevoked]
    is only sent for a key that [GetCommand] has just found. *)
Definition exec (c : Command) (t : gmap string ApiToken)
  : Output * gmap string ApiToken :=
  match c with
  | PutCommand item => (PutOutput, <[id item := item]> t)
  | GetCommand k => (GetOutput (t !! k), t)
  | QueryTokenHashIndex h =>
      (QueryOutput (scan (fun x => String.eqb (tokenHash x) h) t), t)
  | QueryUserIdIndex u =>
      (QueryOutput (scan (fun x => String.eqb (userId x) u) t), t)
  | UpdateRevoked k => (UpdateOutput, alter set_revoked k t)
  end.

(** [await docClient.send(c)]: the command is logged; when the persistence
    layer fails the call throws and the table is as before. *)
Definition send (env : Env) (c : Command) : M Output :=
  fun w =>
    let w1 := {| table := table w; io := io w ++ [DbSend c] |} in
    match dbFault env c with
    | Some e => (Throw e, w1)
    | None =>
        let '(out, t') := exec c (table w) in
        (Ok out, {| table := t'; io := io w1 |})
    end.

Definition Items_of (o : Output) : list ApiToken :=
  match o with QueryOutput l => l | _ => [] end.

Definition Item_of (o : Output) : option ApiToken :=
  match o with GetOutput i => i | _ => None end.

End Dynamo.
Export Dynamo.

Notation "'do' x <- m ; k" := (bind m (fun x => k))
  (at level 10, x name, m at level 100, k at level 200).

(** A string that JavaScript takes as true: defined and not empty. *)
Definition truthy (o : option string) : option string :=
  match o with
  | Some s => if String.eqb s "" then None else Some s
  | None => None
  end.

(** ** [apps/api/src/tokens/index.ts] *)

Module Tokens.

Definition MAX_EXPIRY_DAYS : Z := 365.
Definition TOKEN_PREFIX : string := "wea_".

Definition headers : list (string * string) :=
  [("Content-Type", "application/json");
   ("Access-Control-Allow-Origin", "*");
   ("Access-Control-Allow-Headers",
    "Content-Type,X-Amz-Date,Authorization,X-Api-Key,X-Amz-Security-Token");
   ("Access-Control-Allow-Methods", "GET,POST,DELETE,OPTIONS")].

(** [interface CreateTokenRequest]; the handler itself checks that the
    name is there. *)
Record CreateTokenRequest : Type := {
  req_name : option string;
  expiresInDays : option Z
}.

(** What the handler reads of the event: the subject claim
    [requestContext.authorizer?.claims?.sub], the method, the body and
    [pathParameters?.id]. *)
Record APIGatewayProxyEvent : Type := {
  claims_sub : option string;
  httpMethod : string;
  body : option string;
  pathParameters_id : option string
}.

Record APIGatewayProxyResult : Type := {
  statusCode : Z;
  resultHeaders : list (string * string);
  resultBody : jsval
}.

(** [{ statusCode, headers, body: JSON.stringify(v) }] *)
Definition respond (code : Z) (v : jsval) : APIGatewayProxyResult :=
  {| statusCode := code; resultHeaders := headers;
     resultBody := stringify v |}.

Definition message (m : string) : jsval := JObj [("message", JStr m)].

Definition opt_num (o : option Z) : jsval :=
  match o with Some n => JNum n | None => JUndefined end.

(** The object literal [apiToken] of [createToken]: [expiresAt] is a
    property of it also when its value is [undefined]; there is no
    [lastUsedAt]. *)
Definition literal (t : ApiToken) : list (string * jsval) :=
  [("id", JStr (id t)); ("userId", JStr (userId t));
   ("tokenHash", JStr (tokenHash t)); ("name", JStr (name t));
   ("prefix", JStr (prefix t)); ("createdAt", JStr (createdAt t));
   ("expiresAt", opt_num (expiresAt t)); ("revoked", JBool (revoked t))].

(** An item as a query returns it: the attributes it has. *)
Definition item_object (t : ApiToken) : list (string * jsval) :=
  [("id", JStr (id t)); ("userId", JStr (userId t));
   ("tokenHash", JStr (tokenHash t)); ("name", JStr (name t));
   ("prefix", JStr (prefix t)); ("createdAt", JStr (createdAt t))]
  ++ match lastUsedAt t with Some s => [("lastUsedAt", JStr s)] | None => [] end
  ++ match expiresAt t with Some n => [("expiresAt", JNum n)] | None => [] end
  ++ [("revoked", JBool (revoked t))].

(** [!request.name || request.name.trim().length === 0] *)
Definition name_missing (request : CreateTokenRequest) : bool :=
  match truthy (req_name request) with
  | None => true
  | Some n => String.eqb (trim n) ""
  end.

(** [request.expiresInDays !== undefined &&
     (request.expiresInDays < 1 || request.expiresInDays > MAX_EXPIRY_DAYS)] *)
Definition expiry_invalid (request : CreateTokenRequest) : bool :=
  match expiresInDays request with
  | Some d => ((d <? 1) || (d >? MAX_EXPIRY_DAYS))%Z
  | None => false
  end.

(** [expiryDate.setDate(expiryDate.getDate() + days)] on the clock of the
    Lambda, which runs in UTC: a day is 86400000 ms. *)
Definition add_days (ms days : Z) : Z := (ms + days * 86400000)%Z.

(** The expiry of the new token: [if (request.expiresInDays)] takes the
    days when they are there and not zero;
    [Math.floor(expiryDate.getTime() / 1000)]. *)
Definition expiry_of (env : Env) (request : CreateTokenRequest) : option Z :=
  match expiresInDays request with
  | Some d =>
      if (d =? 0)%Z then None else Some (add_days (nowMs env) d / 1000)%Z
  | None => None
  end.

Section Handlers.

(** [createHash('sha256').update(s).digest('hex')] *)
Variable sha256hex : string -> string.
(** [JSON.parse] of a request body, read as a [CreateTokenRequest]. *)
Variable JSON_parse : string -> result CreateTokenRequest.
Variable env : Env.

Definition new_token (userId : string) (request : CreateTokenRequest)
  : ApiToken :=
  let token := TOKEN_PREFIX +:+ randomPart env in
  {| id := uuid env;
     userId := userId;
     tokenHash := sha256hex token;
     name := trim (default "" (req_name request));
     prefix := substring_to 12 token;
     createdAt := nowISO env;
     lastUsedAt := None;
     expiresAt := expiry_of env request;
     revoked := false |}.

Definition createToken (event : APIGatewayProxyEvent) (userId : string)
  : M APIGatewayProxyResult :=
  match truthy (body event) with
  | None => ret (respond 400 (message "Request body is required"))
  | Some b =>
      match JSON_parse b with
      | Throw e => throw e
      | Ok request =>
          if name_missing request then
            ret (respond 400 (message "Token name is required"))
          else if expiry_invalid request then
            ret (respond 400
                   (message "Expiry must be between 1 and 365 days"))
          else
            let token := TOKEN_PREFIX +:+ randomPart env in
            let apiToken := new_token userId request in
            do _ <- send env (PutCommand apiToken) ;
            let tokenInfo := omit "tokenHash" (literal apiToken) in
            ret (respond 201 (JObj [("token", JStr token);
                                    ("tokenInfo", JObj tokenInfo)]))
      end
  end.

Definition listTokens (userId : string) : M APIGatewayProxyResult :=
  do result <- send env (QueryUserIdIndex userId) ;
  let tokens :=
    List.map (fun item => JObj (omit "tokenHash" (item_object item)))
             (Items_of result) in
  ret (respond 200 (JObj [("tokens", JArr tokens)])).

Definition revokeToken (event : APIGatewayProxyEvent) (userId : string)
  : M APIGatewayProxyResult :=
  match truthy (pathParameters_id event) with
  | None => ret (respond 400 (message "Token ID is required"))
  | Some tokenId =>
      do result <- send env (GetCommand tokenId) ;
      match Item_of result with
      | None => ret (respond 404 (message "Token not found"))
      | Some item =>
          if negb (String.eqb (Dynamo.userId item) userId) then
            ret (respond 403 (message "Forbidden"))
          else
            do _ <- send env (UpdateRevoked tokenId) ;
            ret (respond 200 (message "Token revoked successfully"))
      end
  end.

Definition handler (event : APIGatewayProxyEvent)
  : M APIGatewayProxyResult :=
  do _ <- emit (ConsoleLog "Event:") ;
  try_catch
    (match truthy (claims_sub event) with
     | None => ret (respond 401 (message "Unauthorized"))
     | Some userId =>
         let method := httpMethod event in
         if String.eqb method "POST" then createToken event userId
         else if String.eqb method "GET" then listTokens userId
         else if String.eqb method "DELETE" then revokeToken event userId
         else ret (respond 405 (message "Method not allowed"))
     end)
    (fun error =>
       do _ <- emit (ConsoleError "Error:" error) ;
       ret (respond 500 (JObj [("message", JStr "Internal server error");
                               ("error", JStr (message_of error))]))).

End Handlers.

End Tokens.

(** ** The custom authorizer *)

Module Authorizer.

Record APIGatewayTokenAuthorizerEvent : Type := {
  authorizationToken : string;
  methodArn : string
}.

Inductive PolicyEffect : Type := Allow | Deny.

Record Statement : Type := {
  Action : string;
  Effect : PolicyEffect;
  Resource : string
}.

Record PolicyDocument : Type := {
  Version : string;
  Statements : list Statement
}.

Record APIGatewayAuthorizerResult : Type := {
  principalId : string;
  policyDocument : PolicyDocument;
  context : option (list (string * string))
}.

Definition generatePolicy (principalId : string) (effect : PolicyEffect)
    (resource : string) (context : option (list (string * string)))
  : APIGatewayAuthorizerResult :=
  {| principalId := principalId;
     policyDocument :=
       {| Version := "2012-10-17";
          Statements := [ {| Action := "execute-api:Invoke";
                             Effect := effect;
                             Resource := resource |} ] |};
     context := context |}.

(** [apiToken.expiresAt && apiToken.expiresAt < Math.floor(Date.now() / 1000)]:
    an [expiresAt] that is undefined or 0 counts as false. *)
Definition expired (env : Env) (apiToken : ApiToken) : bool :=
  match expiresAt apiToken with
  | Some e => (negb (e =? 0) && (e <? nowMs env / 1000))%Z
  | None => false
  end.

Definition Unauthorized : exn := Error "Unauthorized".
Definition InvalidFormat : exn := Error "Invalid token format".

Section Handlers.

(** [createHash('sha256').update(s).digest('hex')] *)
Variable sha256hex : string -> string.
(** [verifier.verify(token)] of the Cognito verifier (user pool, client id
    and token use [id] fixed): the [sub] of the payload, or a throw. *)
Variable verify : string -> result string.
Variable env : Env.

Definition validateCognitoToken (token methodArn : string)
  : M APIGatewayAuthorizerResult :=
  try_catch
    (do _ <- emit (JwtVerify token) ;
     match verify token with
     | Throw e => throw e
     | Ok sub =>
         do _ <- emit (ConsoleLog "Cognito token validated for user:") ;
         ret (generatePolicy sub Allow methodArn
                (Some [("userId", sub); ("authType", "cognito")]))
     end)
    (fun error =>
       do _ <- emit (ConsoleError "Cognito token validation failed:" error) ;
       throw Unauthorized).

Definition validateApiKey (token methodArn : string)
  : M APIGatewayAuthorizerResult :=
  try_catch
    (let tokenHash := sha256hex token in
     do result <- send env (QueryTokenHashIndex tokenHash) ;
     match Items_of result with
     | [] => throw (Error "API key not found")
     | apiToken :: _ =>
         if revoked apiToken then throw (Error "API key has been revoked")
         else if expired env apiToken then throw (Error "API key has expired")
         else
           do _ <- emit (ConsoleLog "API key validated for user:") ;
           ret (generatePolicy (userId apiToken) Allow methodArn
                  (Some [("userId", userId apiToken);
                         ("tokenId", id apiToken);
                         ("authType", "apikey")]))
     end)
    (fun error =>
       do _ <- emit (ConsoleError "API key validation failed:" error) ;
       throw Unauthorized).

Definition handler (event : APIGatewayTokenAuthorizerEvent)
  : M APIGatewayAuthorizerResult :=
  do _ <- emit (ConsoleLog "Authorizer event:") ;
  try_catch
    (let token := authorizationToken event in
     if startsWith token "Bearer " then
       let jwtToken := substring_from 7 token in
       validateCognitoToken jwtToken (methodArn event)
     else if startsWith token "wea_" then
       validateApiKey token (methodArn event)
     else throw InvalidFormat)
    (fun error =>
       do _ <- emit (ConsoleError "Authorization error:" error) ;
       throw Unauthorized).

End Handlers.

End Authorizer.

(** ** Numbers and the types of the weather data *)

Module Num.

Import QArith.
Local Close Scope Q_scope.

(** A JavaScript number other than NaN. A finite number is the rational
    it denotes: the code below copies and compares such numbers and never
    computes with them. *)
Inductive number : Type :=
| NegInfinity
| Finite (q : Q)
| Infinity.

(** [a <= b] *)
Definition leb (a b : number) : bool :=
  match a, b with
  | NegInfinity, _ => true
  | _, Infinity => true
  | Finite p, Finite q => Qle_bool p q
  | _, _ => false
  end.

Definition min2 (a b : number) : number := if leb a b then a else b.
Definition max2 (a b : number) : number := if leb a b then b else a.

(** [Math.min(...xs)] and [Math.max(...xs)]; of no number they are
    [Infinity] and [-Infinity]. *)
Definition Math_min (xs : list number) : number := fold_left min2 xs Infinity.
Definition Math_max (xs : list number) : number :=
  fold_left max2 xs NegInfinity.

(** A number that JavaScript takes as true: any but zero. *)
Definition nonzero (n : number) : bool :=
  match n with
  | Finite q => negb (Qeq_bool q (0 # 1))
  | _ => true
  end.

End Num.

(** The types of [types.ts] for the OpenWeatherMap API. *)
Module Owm.

(** An element of [weather]. *)
Module Tag.
Record t : Type := { description : string; icon : string }.
End Tag.

(** An element of [list] of [OpenWeatherMapForecastResponse]. *)
Module Entry.
Record t : Type := {
  dt : Z;
  temp_min : Num.number;
  temp_max : Num.number;
  weather : list Tag.t;
  pop : Num.number
}.
End Entry.

(** [OpenWeatherMapResponse]; [main] and [wind] are flattened. *)
Module Current.
Record t : Type := {
  weather : list Tag.t;
  temp : Num.number;
  feels_like : Num.number;
  pressure : Num.number;
  humidity : Num.number;
  speed : Num.number;
  deg : Num.number;
  dt : Z
}.
End Current.

End Owm.

Module WeatherForecast.
Record t : Type := {
  date : string;
  tempMin : Num.number;
  tempMax : Num.number;
  description : string;
  icon : string;
  precipitation : Num.number
}.
End WeatherForecast.

(** ** [processForecastData] *)

Module Forecast.

Import Num.

(** The value of the [Map] [dailyData]. *)
Record DayData : Type := {
  temps : list number;
  descriptions : list string;
  icons : list string;
  precipitation : list number
}.

Definition empty_day : DayData :=
  {| temps := []; descriptions := []; icons := []; precipitation := [] |}.

(** [s.split(c)[0]] *)
Fixpoint before (c : ascii) (s : string) : string :=
  match s with
  | EmptyString => EmptyString
  | String a s' => if Ascii.eqb a c then EmptyString else String a (before c s')
  end.

(** A [Map] with string keys keeps its entries in the order they were
    first set. *)
Definition Map_has (k : string) (m : list (string * DayData)) : bool :=
  existsb (fun kv => String.eqb (fst kv) k) m.

(** [m.set(k, v)] for a key that [m] has not. *)
Definition Map_set (k : string) (v : DayData) (m : list (string * DayData))
  : list (string * DayData) :=
  m ++ [(k, v)].

(** The pushes on the object that [m.get(k)] gives. *)
Definition Map_adjust (k : string) (f : DayData -> DayData)
    (m : list (string * DayData)) : list (string * DayData) :=
  List.map (fun kv => if String.eqb (fst kv) k then (fst kv, f (snd kv))
                      else kv) m.

(** The four pushes of one entry of the forecast. *)
Definition push (item : Owm.Entry.t) (day : DayData) : DayData :=
  let first := head (Owm.Entry.weather item) in
  {| temps := temps day ++ [Owm.Entry.temp_min item; Owm.Entry.temp_max item];
     descriptions :=
       descriptions day ++ [default "" (Owm.Tag.description <$> first)];
     icons := icons day ++ [default "" (Owm.Tag.icon <$> first)];
     precipitation := precipitation day ++ [Owm.Entry.pop item] |}.

(** The aggregates of a day. *)
Definition aggregate (kv : string * DayData) : WeatherForecast.t :=
  let data := snd kv in
  {| WeatherForecast.date := fst kv;
     WeatherForecast.tempMin := Math_min (temps data);
     WeatherForecast.tempMax := Math_max (temps data);
     WeatherForecast.description :=
       default "" (descriptions data
                     !! (List.length (descriptions data) / 2)%nat);
     WeatherForecast.icon :=
       default "" (icons data !! (List.length (icons data) / 2)%nat);
     WeatherForecast.precipitation := Math_max (precipitation data) |}.

Section WithLibraries.

(** [new Date(ms).toISOString()] *)
Variable toISOString : Z -> string.
(** [a.localeCompare(b)]: negative, zero or positive. *)
Variable localeCompare : string -> string -> Z.

(** [new Date(item.dt * 1000).toISOString().split('T')[0]] *)
Definition date_of (item : Owm.Entry.t) : string :=
  before "T" (toISOString (Owm.Entry.dt item * 1000)).

(** The body of the [forEach] over the entries. *)
Definition add_item (m : list (string * DayData)) (item : Owm.Entry.t)
  : list (string * DayData) :=
  let date := date_of item in
  let m1 := if Map_has date m then m else Map_set date empty_day m in
  Map_adjust date (push item) m1.

Definition group (items : list Owm.Entry.t) : list (string * DayData) :=
  fold_left add_item items [].

(** [forecast.sort((a, b) => a.date.localeCompare(b.date))]: the sort of
    arrays is stable; an element goes behind those it does not precede. *)
Fixpoint insert (x : WeatherForecast.t) (l : list WeatherForecast.t)
  : list WeatherForecast.t :=
  match l with
  | [] => [x]
  | y :: l' =>
      if (localeCompare (WeatherForecast.date x) (WeatherForecast.date y)
          <? 0)%Z
      then x :: y :: l'
      else y :: insert x l'
  end.

Definition sort (l : list WeatherForecast.t) : list WeatherForecast.t :=
  fold_left (fun acc x => insert x acc) l [].

Definition processForecastData (forecastData : list Owm.Entry.t)
  : list WeatherForecast.t :=
  take 5 (sort (List.map aggregate (group forecastData))).

(** The entries of a day among those seen so far, and the value that the
    pushes of these entries build. *)
Definition of_day (d : string) (items : list Owm.Entry.t)
  : list Owm.Entry.t :=
  filter (fun item => date_of item = d) items.

Definition day_of (d : string) (items : list Owm.Entry.t) : DayData :=
  fold_left (fun day item => push item day) (of_day d items) empty_day.

(** What the loop keeps true of the map and the entries seen so far. *)
Definition grouped (m : list (string * DayData)) (seen : list Owm.Entry.t)
  : Prop :=
  NoDup m.*1 /\
  (forall d data, (d, data) ∈ m ->
                  data = day_of d seen /\ of_day d seen <> []) /\
  (forall item, item ∈ seen -> date_of item ∈ m.*1).

End WithLibraries.

End Forecast.

(** ** The tables of subscriptions and of weather data *)

(** [types.ts], [interface LocationSubscription]. *)
Module LocationSubscription.
Record t : Type := {
  id : string;
  userId : string;
  location : string;
  latitude : Num.number;
  longitude : Num.number;
  city : string;
  country : string;
  createdAt : string;
  updatedAt : string
}.
End LocationSubscription.

(** [interface CreateSubscriptionRequest], as [JSON.parse] gives it: the
    handler itself checks which fields are there. *)
Module CreateSubscriptionRequest.
Record t : Type := {
  location : option string;
  latitude : option Num.number;
  longitude : option Num.number;
  city : option string;
  country : option string
}.
End CreateSubscriptionRequest.

(** [WeatherData & { forecast?; ttl? }], an item of the weather table. *)
Module WeatherData.
Record t : Type := {
  id : string;
  subscriptionId : string;
  location : string;
  temperature : Num.number;
  feelsLike : Num.number;
  humidity : Num.number;
  pressure : Num.number;
  windSpeed : Num.number;
  windDirection : Num.number;
  description : string;
  icon : string;
  timestamp : string;
  fetchedAt : string;
  forecast : option (list WeatherForecast.t);
  ttl : option Z
}.
End WeatherData.

Module Store.

(** The commands of the three weather functions. *)
Inductive Command : Type :=
| PutSubscription (Item : LocationSubscription.t)
| GetSubscription (Key : string)
| QueryUserIdIndex (user : string)
| DeleteSubscription (Key : string)
| ScanSubscriptions
| PutWeather (Item : WeatherData.t)
| QueryLatestWeather (subscription : string).

Inductive Output : Type :=
| Done
| GetOutput (Item : option LocationSubscription.t)
| SubscriptionItems (Items : list LocationSubscription.t)
| WeatherItems (Items : list WeatherData.t).

(** The answer of [fetch]: [ok], [status] and what [json()] gives. *)
Record Response (A : Type) : Type := {
  ok : bool;
  status : Z;
  json : result A
}.
Arguments ok {A} _.
Arguments status {A} _.
Arguments json {A} _.

Inductive IO : Type :=
| ConsoleLog (text : string)
| ConsoleError (text : string) (e : exn)
| DbSend (c : Command)
| Fetch (endpoint : string) (latitude longitude : Num.number).

Record World : Type := {
  subscriptions : gmap string LocationSubscription.t;
  weather : gmap string WeatherData.t;
  io : list IO
}.

(** What one invocation finds outside of the tables: the UUID of a new
    subscription, the UUID of the weather record fetched for a
    subscription (by the id of the subscription), the clock at the places
    the code reads it, what the two requests to OpenWeatherMap answer for
    a subscription, and the failures of the persistence layer. *)
Record Env : Type := {
  uuid : string;
  weather_uuid : string -> string;
  createdNow : string;
  updatedNow : string;
  fetchedNow : string -> string;
  fetchedMs : string -> Z;
  fetch_current : LocationSubscription.t -> result (Response Owm.Current.t);
  fetch_forecast :
    LocationSubscription.t -> result (Response (list Owm.Entry.t));
  dbFault : Command -> option exn
}.

Definition M (A : Type) : Type := World -> result A * World.

Definition ret {A} (a : A) : M A := fun w => (Ok a, w).

Definition throw {A} (e : exn) : M A := fun w => (Throw e, w).

Definition bind {A B} (m : M A) (k : A -> M B) : M B :=
  fun w => match m w with
           | (Ok a, w') => k a w'
           | (Throw e, w') => (Throw e, w')
           end.

Definition try_catch {A} (m : M A) (h : exn -> M A) : M A :=
  fun w => match m w with
           | (Ok a, w') => (Ok a, w')
           | (Throw e, w') => h e w'
           end.

Definition lift {A} (r : result A) : M A :=
  match r with Ok a => ret a | Throw e => throw e end.

Definition emit (e : IO) : M unit :=
  fun w => (Ok tt, {| subscriptions := subscriptions w;
                      weather := weather w; io := io w ++ [e] |}).

Definition by_user (u : string) (t : gmap string LocationSubscription.t)
  : list LocationSubscription.t :=
  (map_to_list
     (filter (fun kv => LocationSubscription.userId (snd kv) = u) t)).*2.

Definition by_subscription (k : string) (t : gmap string WeatherData.t)
  : list WeatherData.t :=
  (map_to_list
     (filter (fun kv => WeatherData.subscriptionId (snd kv) = k) t)).*2.

(** The first item of the index [SubscriptionIdIndex] read with
    [ScanIndexForward: false] and [Limit: 1]; the handler notes the order
    as [Sort descending by timestamp]. Strings are ordered by their
    character codes: the item kept is one that no other is strictly
    after. *)
Definition newest (l : list WeatherData.t) : option WeatherData.t :=
  fold_left
    (fun best x =>
       match best with
       | None => Some x
       | Some b =>
           if String.ltb (WeatherData.timestamp b) (WeatherData.timestamp x)
           then Some x else Some b
       end) l None.

(** The effect of a command on the tables, and its answer; a query and
    the scan give all the items that match (the code reads one page). *)
Definition exec (c : Command) (w : World) : Output * World :=
  match c with
  | PutSubscription item =>
      (Done, {| subscriptions :=
                  <[LocationSubscription.id item := item]> (subscriptions w);
                weather := weather w; io := io w |})
  | GetSubscription k => (GetOutput (subscriptions w !! k), w)
  | QueryUserIdIndex u => (SubscriptionItems (by_user u (subscriptions w)), w)
  | DeleteSubscription k =>
      (Done, {| subscriptions := delete k (subscriptions w);
                weather := weather w; io := io w |})
  | ScanSubscriptions =>
      (SubscriptionItems (map_to_list (subscriptions w)).*2, w)
  | PutWeather item =>
      (Done, {| subscriptions := subscriptions w;
                weather := <[WeatherData.id item := item]> (weather w);
                io := io w |})
  | QueryLatestWeather k =>
      (WeatherItems (option_list (newest (by_subscription k (weather w)))), w)
  end.

(** [await docClient.send(c)] *)
Definition send (env : Env) (c : Command) : M Output :=
  fun w =>
    let w1 := {| subscriptions := subscriptions w; weather := weather w;
                 io := io w ++ [DbSend c] |} in
    match dbFault env c with
    | Some e => (Throw e, w1)
    | None => let '(out, w2) := exec c w1 in (Ok out, w2)
    end.

Definition subscription_items (o : Output) : list LocationSubscription.t :=
  match o with SubscriptionItems l => l | _ => [] end.

Definition weather_items (o : Output) : list WeatherData.t :=
  match o with WeatherItems l => l | _ => [] end.

Definition Item_of (o : Output) : option LocationSubscription.t :=
  match o with GetOutput i => i | _ => None end.

(** The bodies of the answers, as the objects given to [JSON.stringify]. *)
Inductive Body : Type :=
| Message (message : string)
| Failure (message error : string)
| OneSubscription (subscription : LocationSubscription.t)
| Subscriptions (subscriptions : list LocationSubscription.t)
| WeatherReport (current : WeatherData.t) (forecast : list WeatherForecast.t).

Record APIGatewayProxyResult : Type := {
  statusCode : Z;
  headers : list (string * string);
  body : Body
}.

(** What the handlers read of the event. *)
Record APIGatewayProxyEvent : Type := {
  claims_sub : option string;
  httpMethod : string;
  eventBody : option string;
  pathParameters_id : option string;
  pathParameters_subscriptionId : option string
}.

(** The world after [evs] were logged, the tables being left alone. *)
Definition logged (w : World) (evs : list IO) : World :=
  {| subscriptions := subscriptions w; weather := weather w;
     io := io w ++ evs |}.

Definition healthy (env : Env) : Prop := forall c, dbFault env c = None.

End Store.

Declare Scope store_scope.
Notation "'do' x <- m ; k" := (Store.bind m (fun x => k))
  (at level 10, x name, m at level 100, k at level 200) : store_scope.

(** ** [apps/api/src/subscriptions/index.ts] *)

Module Subscriptions.

Import Num Store.
Local Open Scope store_scope.

Definition headers : list (string * string) :=
  [("Content-Type", "application/json");
   ("Access-Control-Allow-Origin", "*");
   ("Access-Control-Allow-Headers",
    "Content-Type,X-Amz-Date,Authorization,X-Api-Key,X-Amz-Security-Token");
   ("Access-Control-Allow-Methods", "GET,POST,DELETE,OPTIONS")].

Definition respond (code : Z) (b : Body) : APIGatewayProxyResult :=
  {| statusCode := code; Store.headers := headers; body := b |}.

(** The decimal text of an integer in a template literal. *)
Definition show (n : Z) : string :=
  DecimalString.NilZero.string_of_int (Z.to_int n).

(** [!request.location || !request.latitude || !request.longitude]: a
    string counts when it is not empty, a number when it is not zero. *)
Definition fields_missing (request : CreateSubscriptionRequest.t) : bool :=
  match truthy (CreateSubscriptionRequest.location request),
        CreateSubscriptionRequest.latitude request,
        CreateSubscriptionRequest.longitude request with
  | Some _, Some lat, Some lon => negb (nonzero lat && nonzero lon)
  | _, _, _ => true
  end.

Section Handlers.

(** [JSON.parse] of a request body, read as a request. *)
Variable JSON_parse : string -> result CreateSubscriptionRequest.t.
(** [new Date(ms).toISOString()] *)
Variable toISOString : Z -> string.
(** [a.localeCompare(b)] *)
Variable localeCompare : string -> string -> Z.
Variable env : Env.

(** [await fetch(url)] and the test of [ok]; the URL holds the two
    coordinates of the subscription. *)
Definition fetch_ok {A} (endpoint failure : string)
    (answer : LocationSubscription.t -> result (Response A))
    (subscription : LocationSubscription.t) : M A :=
  do _ <- emit (Fetch endpoint (LocationSubscription.latitude subscription)
                      (LocationSubscription.longitude subscription)) ;
  do response <- lift (answer subscription) ;
  if negb (ok response) then
    throw (Error (failure +:+ show (status response)))
  else lift (json response).

(** The item that [fetchAndStoreWeather] stores. *)
Definition weather_item (subscription : LocationSubscription.t)
    (currentData : Owm.Current.t) (dailyForecast : list WeatherForecast.t)
  : WeatherData.t :=
  let first := head (Owm.Current.weather currentData) in
  let key := LocationSubscription.id subscription in
  {| WeatherData.id := weather_uuid env key;
     WeatherData.subscriptionId := key;
     WeatherData.location := LocationSubscription.location subscription;
     WeatherData.temperature := Owm.Current.temp currentData;
     WeatherData.feelsLike := Owm.Current.feels_like currentData;
     WeatherData.humidity := Owm.Current.humidity currentData;
     WeatherData.pressure := Owm.Current.pressure currentData;
     WeatherData.windSpeed := Owm.Current.speed currentData;
     WeatherData.windDirection := Owm.Current.deg currentData;
     WeatherData.description := default "" (Owm.Tag.description <$> first);
     WeatherData.icon := default "" (Owm.Tag.icon <$> first);
     WeatherData.timestamp := toISOString (Owm.Current.dt currentData * 1000);
     WeatherData.fetchedAt := fetchedNow env key;
     WeatherData.forecast := Some dailyForecast;
     WeatherData.ttl := Some (fetchedMs env key / 1000 + 30 * 24 * 60 * 60)%Z |}.

Definition fetchAndStoreWeather (subscription : LocationSubscription.t)
  : M unit :=
  let place := LocationSubscription.location subscription in
  do _ <- emit (ConsoleLog ("Fetching weather for " +:+ place)) ;
  do currentData <-
    fetch_ok "weather" "OpenWeatherMap API error: "
             (fetch_current env) subscription ;
  do forecastData <-
    fetch_ok "forecast" "OpenWeatherMap Forecast API error: "
             (fetch_forecast env) subscription ;
  let dailyForecast :=
    Forecast.processForecastData toISOString localeCompare forecastData in
  do _ <- send env (PutWeather
                      (weather_item subscription currentData dailyForecast)) ;
  emit (ConsoleLog ("Weather data stored for " +:+ place)).

Definition new_subscription (userId : string)
    (request : CreateSubscriptionRequest.t) : LocationSubscription.t :=
  {| LocationSubscription.id := uuid env;
     LocationSubscription.userId := userId;
     LocationSubscription.location :=
       default "" (CreateSubscriptionRequest.location request);
     LocationSubscription.latitude :=
       default (Finite (QArith_base.Qmake 0 1))
               (CreateSubscriptionRequest.latitude request);
     LocationSubscription.longitude :=
       default (Finite (QArith_base.Qmake 0 1))
               (CreateSubscriptionRequest.longitude request);
     LocationSubscription.city :=
       default "" (CreateSubscriptionRequest.city request);
     LocationSubscription.country :=
       default "" (CreateSubscriptionRequest.country request);
     LocationSubscription.createdAt := createdNow env;
     LocationSubscription.updatedAt := updatedNow env |}.

Definition createSubscription (event : APIGatewayProxyEvent)
    (userId : string) : M APIGatewayProxyResult :=
  match truthy (eventBody event) with
  | None => ret (respond 400 (Message "Request body is required"))
  | Some b =>
      do request <- lift (JSON_parse b) ;
      if fields_missing request then
        ret (respond 400
               (Message
                  "Missing required fields: location, latitude, longitude"))
      else
        let subscription := new_subscription userId request in
        let place := LocationSubscription.location subscription in
        do _ <- send env (PutSubscription subscription) ;
        do _ <- try_catch
                  (do _ <- fetchAndStoreWeather subscription ;
                   emit (ConsoleLog ("Initial weather fetched for " +:+ place)))
                  (fun error =>
                     emit (ConsoleError
                             ("Failed to fetch initial weather for "
                              +:+ place +:+ ":") error)) ;
        ret (respond 201 (OneSubscription subscription))
  end.

Definition listSubscriptions (userId : string) : M APIGatewayProxyResult :=
  do result <- send env (QueryUserIdIndex userId) ;
  ret (respond 200 (Store.Subscriptions (subscription_items result))).

Definition deleteSubscription (event : APIGatewayProxyEvent)
    (userId : string) : M APIGatewayProxyResult :=
  match truthy (pathParameters_id event) with
  | None => ret (respond 400 (Message "Subscription ID is required"))
  | Some subscriptionId =>
      do result <- send env (GetSubscription subscriptionId) ;
      match Item_of result with
      | None => ret (respond 404 (Message "Subscription not found"))
      | Some item =>
          if negb (String.eqb (LocationSubscription.userId item) userId) then
            ret (respond 403 (Message "Forbidden"))
          else
            do _ <- send env (DeleteSubscription subscriptionId) ;
            ret (respond 200 (Message "Subscription deleted successfully"))
      end
  end.

Definition handler (event : APIGatewayProxyEvent)
  : M APIGatewayProxyResult :=
  do _ <- emit (ConsoleLog "Event:") ;
  try_catch
    (match truthy (claims_sub event) with
     | None => ret (respond 401 (Message "Unauthorized"))
     | Some userId =>
         let method := httpMethod event in
         if String.eqb method "POST" then createSubscription event userId
         else if String.eqb method "GET" then listSubscriptions userId
         else if String.eqb method "DELETE" then
           deleteSubscription event userId
         else ret (respond 405 (Message "Method not allowed"))
     end)
    (fun error =>
       do _ <- emit (ConsoleError "Error:" error) ;
       ret (respond 500 (Failure "Internal server error"
                                 (message_of error)))).

End Handlers.

End Subscriptions.

(** ** [apps/api/src/weather/index.ts] *)

Module Weather.

Import Num Store.
Local Open Scope store_scope.

Definition headers : list (string * string) :=
  [("Content-Type", "application/json");
   ("Access-Control-Allow-Origin", "*");
   ("Access-Control-Allow-Headers",
    "Content-Type,X-Amz-Date,Authorization,X-Api-Key,X-Amz-Security-Token");
   ("Access-Control-Allow-Methods", "GET,OPTIONS")].

Definition respond (code : Z) (b : Body) : APIGatewayProxyResult :=
  {| statusCode := code; Store.headers := headers; body := b |}.

(** The [current] of the answer: the thirteen fields of [WeatherData]. *)
Definition current_of (weatherData : WeatherData.t) : WeatherData.t :=
  {| WeatherData.id := WeatherData.id weatherData;
     WeatherData.subscriptionId := WeatherData.subscriptionId weatherData;
     WeatherData.location := WeatherData.location weatherData;
     WeatherData.temperature := WeatherData.temperature weatherData;
     WeatherData.feelsLike := WeatherData.feelsLike weatherData;
     WeatherData.humidity := WeatherData.humidity weatherData;
     WeatherData.pressure := WeatherData.pressure weatherData;
     WeatherData.windSpeed := WeatherData.windSpeed weatherData;
     WeatherData.windDirection := WeatherData.windDirection weatherData;
     WeatherData.description := WeatherData.description weatherData;
     WeatherData.icon := WeatherData.icon weatherData;
     WeatherData.timestamp := WeatherData.timestamp weatherData;
     WeatherData.fetchedAt := WeatherData.fetchedAt weatherData;
     WeatherData.forecast := None;
     WeatherData.ttl := None |}.

Definition handler (env : Env) (event : APIGatewayProxyEvent)
  : M APIGatewayProxyResult :=
  do _ <- emit (ConsoleLog "Event:") ;
  try_catch
    (match truthy (claims_sub event) with
     | None => ret (respond 401 (Message "Unauthorized"))
     | Some userId =>
         match truthy (pathParameters_subscriptionId event) with
         | None => ret (respond 400 (Message "Subscription ID is required"))
         | Some subscriptionId =>
             do subscriptionResult <-
               send env (GetSubscription subscriptionId) ;
             match Item_of subscriptionResult with
             | None => ret (respond 404 (Message "Subscription not found"))
             | Some item =>
                 if negb (String.eqb (LocationSubscription.userId item)
                                     userId) then
                   ret (respond 403 (Message "Forbidden"))
                 else
                   do weatherResult <-
                     send env (QueryLatestWeather subscriptionId) ;
                   match weather_items weatherResult with
                   | [] =>
                       ret (respond 404
                              (Message "No weather data available yet"))
                   | weatherData :: _ =>
                       ret (respond 200
                              (WeatherReport
                                 (current_of weatherData)
                                 (default []
                                    (WeatherData.forecast weatherData))))
                   end
             end
         end
     end)
    (fun error =>
       do _ <- emit (ConsoleError "Error:" error) ;
       ret (respond 500 (Failure "Internal server error"
                                 (message_of error)))).

End Weather.

(** ** The scheduled weather fetch *)

Module WeatherFetch.

Import Num Store.
Local Open Scope store_scope.

Section Handlers.

Variable toISOString : Z -> string.
Variable localeCompare : string -> string -> Z.
Variable env : Env.

(** The [fetchAndStoreWeather] of this file has the statements of the one
    of [subscriptions/index.ts] inside a [try] whose [catch] only logs. *)
Definition fetchAndStoreWeather (subscription : LocationSubscription.t)
  : M unit :=
  try_catch
    (Subscriptions.fetchAndStoreWeather toISOString localeCompare env
       subscription)
    (fun error =>
       emit (ConsoleError
               ("Error fetching weather for "
                +:+ LocationSubscription.location subscription +:+ ":")
               error)).

(** [await Promise.allSettled(subscriptions.map(fetchAndStoreWeather))],
    the calls taken one after the other: each of them writes one key of
    the weather table at most, and none of them can reject. *)
Fixpoint all_settled (subscriptions : list LocationSubscription.t)
  : M unit :=
  match subscriptions with
  | [] => ret tt
  | subscription :: rest =>
      do _ <- fetchAndStoreWeather subscription ;
      all_settled rest
  end.

Definition handler : M unit :=
  do _ <- emit (ConsoleLog "Fetching weather data for all subscriptions...") ;
  try_catch
    (do result <- send env ScanSubscriptions ;
     let subscriptions := subscription_items result in
     do _ <- emit (ConsoleLog
                     ("Found "
                      +:+ Subscriptions.show (Z.of_nat (length subscriptions))
                      +:+ " subscriptions")) ;
     do _ <- all_settled subscriptions ;
     emit (ConsoleLog "Weather fetch completed"))
    (fun error =>
       do _ <- emit (ConsoleError "Error in weather fetch:" error) ;
       throw error).

End Handlers.

End WeatherFetch.

(** ** Concrete library functions and inputs for the examples *)

Module Sample.

Import Tokens Authorizer.

(** A stand-in digest: the text between two marks. *)
Definition digest (s : string) : string := "h(" +:+ s +:+ ")".

(** A stand-in verifier: it accepts one token, of the user [alice]. *)
Definition verifier (t : string) : result string :=
  if String.eqb t "eyJ.alice.sig" then Ok "alice"
  else Throw (Error "Invalid JWT").

(** A stand-in parser: the body is the name; no expiry. *)
Definition parse_name (b : string) : result CreateTokenRequest :=
  Ok {| req_name := Some b; expiresInDays := None |}.

Definition no_fault : Command -> option exn := fun _ => None.

Definition env0 : Env :=
  {| randomPart := "Zm9vYmFyYmF6cXV4";
     uuid := "7d4f0a52";
     nowMs := 1800000000123;
     nowISO := "2027-01-15T08:00:00.123Z";
     dbFault := no_fault |}.

Definition world0 : World := {| table := ∅; io := [] |}.

(** The persistence layer is down: every command fails. *)
Definition outage : exn :=
  Error "ResourceNotFoundException: Requested resource not found".

Definition env_down : Env :=
  {| randomPart := randomPart env0; uuid := uuid env0;
     nowMs := nowMs env0; nowISO := nowISO env0;
     dbFault := fun _ => Some outage |}.

Definition key_ci : string := "wea_Zm9vYmFyYmF6cXV4".

(** The token that [alice] gets from [env0] under the name [CI]. *)
Definition tok_ci : ApiToken :=
  {| id := "7d4f0a52"; userId := "alice"; tokenHash := digest key_ci;
     name := "CI"; prefix := "wea_Zm9vYmFy";
     createdAt := "2027-01-15T08:00:00.123Z";
     lastUsedAt := None; expiresAt := None; revoked := false |}.

(** The same token, with an expiry at the very second of [env0]. *)
Definition tok_edge : ApiToken :=
  {| id := "7d4f0a52"; userId := "alice"; tokenHash := digest key_ci;
     name := "CI"; prefix := "wea_Zm9vYmFy";
     createdAt := "2027-01-14T08:00:00.123Z";
     lastUsedAt := None; expiresAt := Some 1800000000%Z; revoked := false |}.

(** A revoked token of [bob]. *)
Definition tok_bob : ApiToken :=
  {| id := "b0b0cafe"; userId := "bob"; tokenHash := digest "wea_Ym9i";
     name := "old"; prefix := "wea_Ym9i";
     createdAt := "2026-11-02T10:00:00.000Z";
     lastUsedAt := None; expiresAt := None; revoked := true |}.

Definition world_bob : World :=
  {| table := {[ "b0b0cafe" := tok_bob ]}; io := [] |}.

Definition world_ci : World :=
  {| table := <["7d4f0a52" := tok_ci]> {[ "b0b0cafe" := tok_bob ]};
     io := [] |}.

Definition world_edge : World :=
  {| table := {[ "7d4f0a52" := tok_edge ]}; io := [] |}.

Definition post_event (sub b : string) : APIGatewayProxyEvent :=
  {| claims_sub := Some sub; httpMethod := "POST"; body := Some b;
     pathParameters_id := None |}.

Definition get_event (sub : string) : APIGatewayProxyEvent :=
  {| claims_sub := Some sub; httpMethod := "GET"; body := None;
     pathParameters_id := None |}.

Definition delete_event (sub k : string) : APIGatewayProxyEvent :=
  {| claims_sub := Some sub; httpMethod := "DELETE"; body := None;
     pathParameters_id := Some k |}.

Definition credential (c : string) : APIGatewayTokenAuthorizerEvent :=
  {| authorizationToken := c; methodArn := "arn:aws:execute-api:GET/weather" |}.

(** A parser for bodies that ask for an expiry: always 400 days. *)
Definition parse_400_days (b : string) : result CreateTokenRequest :=
  Ok {| req_name := Some b; expiresInDays := Some 400%Z |}.

(** A parser for bodies that ask for an expiry of one day. *)
Definition parse_one_day (b : string) : result CreateTokenRequest :=
  Ok {| req_name := Some b; expiresInDays := Some 1%Z |}.

(** The clock of [env0], [s] seconds later. *)
Definition env_after (s : Z) : Env :=
  {| randomPart := randomPart env0; uuid := "c0ffee00";
     nowMs := (nowMs env0 + s * 1000)%Z; nowISO := nowISO env0;
     dbFault := no_fault |}.

(** Stand-ins for the weather functions. *)

(** A stand-in for [toISOString]: the number of the day since the epoch
    in place of the calendar date, then the mark [T]. *)
Definition iso (ms : Z) : string :=
  Subscriptions.show (ms / 86400000) +:+ "T00:00:00.000Z".

(** A stand-in for [localeCompare]: the order of the character codes. *)
Definition by_code (a b : string) : Z :=
  match String.compare a b with Lt => (-1)%Z | Eq => 0%Z | Gt => 1%Z end.

Definition degrees (n : Z) : Num.number :=
  Num.Finite (QArith_base.Qmake n 1).

Definition entry (dt min max : Z) (sky : string) : Owm.Entry.t :=
  {| Owm.Entry.dt := dt;
     Owm.Entry.temp_min := degrees min;
     Owm.Entry.temp_max := degrees max;
     Owm.Entry.weather := [ {| Owm.Tag.description := sky;
                               Owm.Tag.icon := "01d" |} ];
     Owm.Entry.pop := Num.Finite (QArith_base.Qmake 1 4) |}.

(** Three entries over two days, the later day first. *)
Definition entries : list Owm.Entry.t :=
  [entry 1800100000 5 9 "rain"; entry 1800000000 2 6 "clear sky";
   entry 1800010800 4 11 "few clouds"].

(** The first of the two days of [entries]. *)
Definition day_20833 : WeatherForecast.t :=
  {| WeatherForecast.date := "20833";
     WeatherForecast.tempMin := degrees 2;
     WeatherForecast.tempMax := degrees 11;
     WeatherForecast.description := "few clouds";
     WeatherForecast.icon := "01d";
     WeatherForecast.precipitation := Num.Finite (QArith_base.Qmake 1 4) |}.

Definition current_sample : Owm.Current.t :=
  {| Owm.Current.weather := [ {| Owm.Tag.description := "clear sky";
                                 Owm.Tag.icon := "01d" |} ];
     Owm.Current.temp := degrees 7;
     Owm.Current.feels_like := degrees 5;
     Owm.Current.pressure := degrees 1013;
     Owm.Current.humidity := degrees 80;
     Owm.Current.speed := degrees 3;
     Owm.Current.deg := degrees 270;
     Owm.Current.dt := 1800000000 |}.

Definition oslo : LocationSubscription.t :=
  {| LocationSubscription.id := "5ub-0510";
     LocationSubscription.userId := "alice";
     LocationSubscription.location := "Oslo";
     LocationSubscription.latitude := degrees 60;
     LocationSubscription.longitude := degrees 11;
     LocationSubscription.city := "Oslo";
     LocationSubscription.country := "NO";
     LocationSubscription.createdAt := "2027-01-15T08:00:00.123Z";
     LocationSubscription.updatedAt := "2027-01-15T08:00:00.123Z" |}.

Definition lima : LocationSubscription.t :=
  {| LocationSubscription.id := "5ub-11ma";
     LocationSubscription.userId := "bob";
     LocationSubscription.location := "Lima";
     LocationSubscription.latitude := degrees (-12);
     LocationSubscription.longitude := degrees (-77);
     LocationSubscription.city := "Lima";
     LocationSubscription.country := "PE";
     LocationSubscription.createdAt := "2027-01-15T08:00:00.123Z";
     LocationSubscription.updatedAt := "2027-01-15T08:00:00.123Z" |}.

Definition answer {A} (a : A) : result (Store.Response A) :=
  Ok {| Store.ok := true; Store.status := 200; Store.json := Ok a |}.

Definition unavailable {A} : result (Store.Response A) :=
  Ok {| Store.ok := false; Store.status := 503;
        Store.json := Throw (Error "Unexpected token") |}.

(** OpenWeatherMap answers for Oslo and is unavailable for the others. *)
Definition store_env : Store.Env :=
  {| Store.uuid := "5ub-n3w0";
     Store.weather_uuid := fun k => "w-" +:+ k;
     Store.createdNow := "2027-01-15T08:00:00.123Z";
     Store.updatedNow := "2027-01-15T08:00:00.124Z";
     Store.fetchedNow := fun _ => "2027-01-15T08:00:00.987Z";
     Store.fetchedMs := fun _ => 1800000000987;
     Store.fetch_current :=
       fun s => if String.eqb (LocationSubscription.location s) "Oslo"
                then answer current_sample else unavailable;
     Store.fetch_forecast :=
       fun s => if String.eqb (LocationSubscription.location s) "Oslo"
                then answer entries else unavailable;
     Store.dbFault := fun _ => None |}.

Definition report (k stamp : string) : WeatherData.t :=
  {| WeatherData.id := k; WeatherData.subscriptionId := "5ub-0510";
     WeatherData.location := "Oslo";
     WeatherData.temperature := degrees 7;
     WeatherData.feelsLike := degrees 5;
     WeatherData.humidity := degrees 80;
     WeatherData.pressure := degrees 1013;
     WeatherData.windSpeed := degrees 3;
     WeatherData.windDirection := degrees 270;
     WeatherData.description := "clear sky"; WeatherData.icon := "01d";
     WeatherData.timestamp := stamp;
     WeatherData.fetchedAt := stamp;
     WeatherData.forecast := None; WeatherData.ttl := None |}.

Definition places : Store.World :=
  {| Store.subscriptions := <["5ub-0510" := oslo]> {[ "5ub-11ma" := lima ]};
     Store.weather :=
       <["w1" := report "w1" "2027-01-15T07:00:00.000Z"]>
         {[ "w2" := report "w2" "2027-01-15T08:00:00.000Z" ]};
     Store.io := [] |}.

Definition store_event (sub : option string) (method : string)
    (b k : option string) : Store.APIGatewayProxyEvent :=
  {| Store.claims_sub := sub; Store.httpMethod := method;
     Store.eventBody := b; Store.pathParameters_id := k;
     Store.pathParameters_subscriptionId := k |}.

(** A parser for bodies that name a place: on the equator when the body
    is [Quito], at 60 N otherwise. *)
Definition parse_place (b : string)
  : result CreateSubscriptionRequest.t :=
  Ok {| CreateSubscriptionRequest.location := Some b;
        CreateSubscriptionRequest.latitude :=
          Some (degrees (if String.eqb b "Quito" then 0 else 60));
        CreateSubscriptionRequest.longitude := Some (degrees 11);
        CreateSubscriptionRequest.city := None;
        CreateSubscriptionRequest.country := Some "NO" |}.

(** A run: [alice] is issued a token, revokes it, lists her tokens, and
    the revoked key is presented to the authorizer. *)
Definition run_end : World :=
  let w1 := snd (Tokens.handler digest parse_name env0
                   (post_event "alice" "CI") world_bob) in
  let w2 := snd (Tokens.handler digest parse_name env0
                   (delete_event "alice" "7d4f0a52") w1) in
  let w3 := snd (Tokens.handler digest parse_name env0
                   (get_event "alice") w2) in
  snd (Authorizer.handler digest verifier env0 (credential key_ci) w3).

End Sample.


(** ** Properties *)

Import Tokens Authorizer.

(** The world after the handler has logged [evs] and left the table alone. *)
Definition logged (w : World) (evs : list IO) : World :=
  {| table := table w; io := io w ++ evs |}.

Definition is_send (e : IO) : bool :=
  match e with DbSend _ => true | _ => false end.

Definition is_verify (e : IO) : bool :=
  match e with JwtVerify _ => true | _ => false end.


(** An element of the [tokens] array of a listing. *)
Definition token_view (t : ApiToken) : jsval :=
  JObj (omit "tokenHash" (item_object t)).

(** The record the index on [tokenHash] gives first for a hash: the
    [Items[0]] of [validateApiKey]. *)
Definition first_by_hash (h : string) (t : gmap string ApiToken)
  : option ApiToken :=
  head (scan (fun x => String.eqb (tokenHash x) h) t).

(** The answer of the [catch] of the token handler. *)
Definition internal_error (e : exn) : APIGatewayProxyResult :=
  respond 500 (JObj [("message", JStr "Internal server error");
                     ("error", JStr (message_of e))]).

(** No command fails. *)
Definition healthy (env : Env) : Prop := forall c, dbFault env c = None.

(** The context an API key is allowed with. *)
Definition apikey_context (r : ApiToken) : list (string * string) :=
  [("userId", userId r); ("tokenId", id r); ("authType", "apikey")].

(** The acceptance condition in the words of the specification: not
    revoked, and [expiresAt] unset or strictly after [now]. *)
Definition live_as_specified (now : Z) (r : ApiToken) : Prop :=
  revoked r = false /\
  (expiresAt r = None \/ exists e, expiresAt r = Some e /\ (now < e)%Z).

(** The acceptance condition of the code, for an [expiresAt] that is not
    0: not revoked, and [expiresAt] unset or not before [now]. *)
Definition live (now : Z) (r : ApiToken) : Prop :=
  revoked r = false /\
  (expiresAt r = None \/ exists e, expiresAt r = Some e /\ (now <= e)%Z).

(** One invocation of one of the two handlers. The UUID that an issue
    request draws is not the id of a token of the table. *)
Inductive step (sha256hex : string -> string)
    (JSON_parse : string -> result CreateTokenRequest)
    (verify : string -> result string) : World -> World -> Prop :=
| step_tokens (env : Env) (event : APIGatewayProxyEvent) (w : World) :
    (httpMethod event = "POST" -> table w !! uuid env = None) ->
    step sha256hex JSON_parse verify w
      (snd (Tokens.handler sha256hex JSON_parse env event w))
| step_authorizer (env : Env) (event : APIGatewayTokenAuthorizerEvent)
    (w : World) :
    step sha256hex JSON_parse verify w
      (snd (Authorizer.handler sha256hex verify env event w)).

(** *** Strings *)

Lemma startsWith_app (p t : string) : startsWith (p +:+ t) p = true.
Proof.
  unfold startsWith. induction p as [|c p IH]; simpl.
  - by destruct t.
  - rewrite IH. by destruct (ascii_dec c c).
Qed.

Lemma substring_from_app (p t : string) :
  substring_from (String.length p) (p +:+ t) = t.
Proof. induction p as [|c p IH]; simpl; [by destruct t | done]. Qed.

Lemma startsWith_head (c d : ascii) (p s t : string) :
  c <> d -> startsWith (String c s +:+ t) (String d p) = false.
Proof.
  intros Hcd. unfold startsWith. simpl.
  destruct (ascii_dec d c) as [->|]; done.
Qed.

Example trim_name : trim "  CI " = "CI".
Proof. reflexivity. Qed.

Example trim_blank : trim "   " = "".
Proof. reflexivity. Qed.

Example display_prefix :
  substring_to 12 (TOKEN_PREFIX +:+ "Zm9vYmFyYmF6cXV4") = "wea_Zm9vYmFy".
Proof. reflexivity. Qed.

Example blank_name_is_missing :
  name_missing {| req_name := Some "   "; expiresInDays := None |} = true.
Proof. reflexivity. Qed.

Example one_day_expiry :
  expiry_of Sample.env0 {| req_name := Some "CI"; expiresInDays := Some 1%Z |}
  = Some 1800086400%Z.
Proof. reflexivity. Qed.

(** *** The authorizer *)

Section AuthorizerFacts.

Variable sha256hex : string -> string.
Variable verify : string -> result string.
Variable env : Env.

Local Ltac run :=
  unfold Authorizer.handler, validateCognitoToken, validateApiKey,
    try_catch, bind, emit, send, ret, throw, logged; simpl.

(** C7, as amended. A credential with neither prefix is denied with
    [Unauthorized]: the [Invalid token format] error is raised and caught
    inside the handler, which only logs it. The log shows that neither a
    command was sent to the table nor the verifier called. *)
Theorem unrecognized_prefix_denied (event : APIGatewayTokenAuthorizerEvent)
    (w : World) :
  startsWith (authorizationToken event) "Bearer " = false ->
  startsWith (authorizationToken event) "wea_" = false ->
  Authorizer.handler sha256hex verify env event w =
    (Throw Unauthorized,
     logged w [ConsoleLog "Authorizer event:";
               ConsoleError "Authorization error:" InvalidFormat]).
Proof.
  intros Hb Hw. run. rewrite Hb, Hw. simpl.
  by rewrite <- app_assoc.
Qed.

(** C10. A credential that begins with [Bearer ] goes to the Cognito
    verifier and nowhere else: the verifier is called on the rest of the
    string, no command is sent to the table, the table is as before.
    Whenever the verifier rejects that rest, as it does for an API key,
    which is no signed JWT, the request is denied with [Unauthorized],
    whatever the table holds for the key. *)
Theorem bearer_prefix_skips_token_table (t arn : string) (w : World) :
  let event := {| authorizationToken := "Bearer " +:+ t; methodArn := arn |} in
  let out := Authorizer.handler sha256hex verify env event w in
  (exists evs, snd out = logged w evs /\
               In (JwtVerify t) evs /\ existsb is_send evs = false) /\
  (forall e, verify t = Throw e -> fst out = Throw Unauthorized).
Proof.
  unfold Authorizer.handler; cbn [authorizationToken methodArn].
  rewrite (startsWith_app "Bearer " t).
  change 7%nat with (String.length "Bearer ").
  rewrite substring_from_app. run.
  destruct (verify t) as [sub|e] eqn:Hv; simpl; split.
  - eexists. rewrite <- !app_assoc. simpl. split; [reflexivity|].
    split; [by right; left | reflexivity].
  - intros e [=].
  - eexists. rewrite <- !app_assoc. simpl. split; [reflexivity|].
    split; [by right; left | reflexivity].
  - reflexivity.
Qed.

(** What [validateApiKey] does, case by case. *)
Lemma validateApiKey_run (token arn : string) (w : World) :
  let q := QueryTokenHashIndex (sha256hex token) in
  let failed e :=
    (Throw Unauthorized,
     logged w [DbSend q; ConsoleError "API key validation failed:" e]) in
  validateApiKey sha256hex env token arn w =
    match dbFault env q with
    | Some e => failed e
    | None =>
        match first_by_hash (sha256hex token) (table w) with
        | None => failed (Error "API key not found")
        | Some r =>
            if revoked r then failed (Error "API key has been revoked")
            else if expired env r then failed (Error "API key has expired")
            else (Ok (generatePolicy (userId r) Allow arn
                        (Some (apikey_context r))),
                  logged w [DbSend q;
                            ConsoleLog "API key validated for user:"])
        end
    end.
Proof.
  run. unfold first_by_hash.
  destruct (dbFault env _) as [e|]; simpl.
  { by rewrite <- ?app_assoc. }
  destruct (scan _ (table w)) as [|r l]; simpl.
  { by rewrite <- ?app_assoc. }
  destruct (revoked r); simpl.
  { by rewrite <- ?app_assoc. }
  destruct (expired env r); simpl; by rewrite <- ?app_assoc.
Qed.

Lemma expired_false_iff (r : ApiToken) :
  expiresAt r <> Some 0%Z ->
  expired env r = false <->
  (expiresAt r = None \/
   exists e, expiresAt r = Some e /\ (nowMs env / 1000 <= e)%Z).
Proof.
  intros Hz. unfold expired. destruct (expiresAt r) as [e|].
  - assert (e <> 0%Z) by congruence.
    replace (e =? 0)%Z with false by (symmetry; by apply Z.eqb_neq).
    simpl. rewrite Z.ltb_ge. split.
    + intros. right. eauto.
    + intros [[=]|(e' & [= <-] & ?)]. done.
  - split; [by left | done].
Qed.

(** C1, as amended. For a record whose [expiresAt], when set, is not 0:
    [validateApiKey] allows the request, with the [userId] of the record
    as principal, exactly when the query by hash succeeds and gives a
    record that is not revoked and whose [expiresAt] is unset or not
    before the current time in seconds; in every other case it throws
    [Unauthorized]. *)
Theorem validateApiKey_accepts_iff (token arn : string) (w : World) :
  (forall r, first_by_hash (sha256hex token) (table w) = Some r ->
             expiresAt r <> Some 0%Z) ->
  let out := fst (validateApiKey sha256hex env token arn w) in
  (forall p, out = Ok p <->
     dbFault env (QueryTokenHashIndex (sha256hex token)) = None /\
     exists r, first_by_hash (sha256hex token) (table w) = Some r /\
               live (nowMs env / 1000) r /\
               p = generatePolicy (userId r) Allow arn
                     (Some (apikey_context r))) /\
  ((exists p, out = Ok p) \/ out = Throw Unauthorized).
Proof.
  intros Hz. rewrite validateApiKey_run. unfold live.
  destruct (dbFault env _) as [e|]; simpl.
  { split; [|by right]. intros p. split; [done | by intros [[=] _]]. }
  destruct (first_by_hash _ _) as [r|] eqn:Hr; simpl.
  2:{ split; [|by right]. intros p. split; [done|].
      by intros (_ & r & [=] & _). }
  specialize (Hz r eq_refl). pose proof (expired_false_iff r Hz) as Hx.
  destruct (revoked r) eqn:Hrev; simpl.
  { split; [|by right]. intros p. split; [done|].
    intros (_ & r' & [= <-] & (Hrev' & _) & _). congruence. }
  destruct (expired env r) eqn:Hexp; simpl.
  { split; [|by right]. intros p. split; [done|].
    intros (_ & r' & [= <-] & (_ & Hlive) & _).
    apply Hx in Hlive. congruence. }
  split; [|left; eauto].
  intros p. split.
  - intros [= <-]. split; [done|]. exists r.
    split; [done|]. split; [|done]. split; [done|]. by apply Hx.
  - intros (_ & r' & [= <-] & _ & ->). done.
Qed.

End AuthorizerFacts.

(** *** The token handlers *)

Section TokensFacts.

Variable sha256hex : string -> string.
Variable JSON_parse : string -> result CreateTokenRequest.

Local Ltac run :=
  unfold createToken, listTokens, revokeToken,
    try_catch, bind, emit, send, ret, throw, logged; simpl.

Lemma logged_nil (w : World) : logged w [] = w.
Proof. destruct w. unfold logged. simpl. by rewrite app_nil_r. Qed.

Lemma logged_logged (w : World) (l1 l2 : list IO) :
  logged (logged w l1) l2 = logged w (l1 ++ l2).
Proof. unfold logged. simpl. by rewrite app_assoc. Qed.

(** What [revokeToken] does, case by case. *)
Lemma revokeToken_run (env : Env) (event : APIGatewayProxyEvent) (user : string)
    (w : World) :
  revokeToken env event user w =
    match truthy (pathParameters_id event) with
    | None => (Ok (respond 400 (message "Token ID is required")), w)
    | Some k =>
        match dbFault env (GetCommand k) with
        | Some e => (Throw e, logged w [DbSend (GetCommand k)])
        | None =>
            match table w !! k with
            | None => (Ok (respond 404 (message "Token not found")),
                       logged w [DbSend (GetCommand k)])
            | Some item =>
                if negb (String.eqb (userId item) user) then
                  (Ok (respond 403 (message "Forbidden")),
                   logged w [DbSend (GetCommand k)])
                else
                  let sent := [DbSend (GetCommand k);
                               DbSend (UpdateRevoked k)] in
                  match dbFault env (UpdateRevoked k) with
                  | Some e => (Throw e, logged w sent)
                  | None =>
                      (Ok (respond 200 (message "Token revoked successfully")),
                       {| table := alter set_revoked k (table w);
                          io := io w ++ sent |})
                  end
            end
        end
    end.
Proof.
  run. destruct (truthy _) as [k|]; [|done].
  destruct (dbFault env (GetCommand k)); [done|]. simpl.
  destruct (table w !! k) as [item|]; simpl; [|done].
  destruct (negb _); [done|]. simpl.
  destruct (dbFault env (UpdateRevoked k)); simpl; by rewrite <- app_assoc.
Qed.

(** What [listTokens] does. *)
Lemma listTokens_run (env : Env) (user : string) (w : World) :
  let q := QueryUserIdIndex user in
  listTokens env user w =
    match dbFault env q with
    | Some e => (Throw e, logged w [DbSend q])
    | None =>
        (Ok (respond 200
               (JObj [("tokens",
                       JArr (List.map
                               (fun item =>
                                  JObj (omit "tokenHash" (item_object item)))
                               (scan (fun x => String.eqb (userId x) user)
                                     (table w))))])),
         logged w [DbSend q])
    end.
Proof. run. by destruct (dbFault env _). Qed.

(** What [createToken] does once the body is there and parsed. *)
Lemma createToken_run (env : Env) (event : APIGatewayProxyEvent) (user b : string)
    (request : CreateTokenRequest) (w : World) :
  truthy (body event) = Some b ->
  JSON_parse b = Ok request ->
  let apiToken := new_token sha256hex env user request in
  createToken sha256hex JSON_parse env event user w =
    if name_missing request then
      (Ok (respond 400 (message "Token name is required")), w)
    else if expiry_invalid request then
      (Ok (respond 400 (message "Expiry must be between 1 and 365 days")), w)
    else
      match dbFault env (PutCommand apiToken) with
      | Some e => (Throw e, logged w [DbSend (PutCommand apiToken)])
      | None =>
          (Ok (respond 201
                 (JObj [("token", JStr (TOKEN_PREFIX +:+ randomPart env));
                        ("tokenInfo",
                         JObj (omit "tokenHash" (literal apiToken)))])),
           {| table := <[uuid env := apiToken]> (table w);
              io := io w ++ [DbSend (PutCommand apiToken)] |})
      end.
Proof.
  intros Hb Hp. unfold createToken. rewrite Hb, Hp.
  destruct (name_missing request); [done|].
  destruct (expiry_invalid request); [done|].
  unfold bind, send, ret, logged.
  by destruct (dbFault env _).
Qed.

(** C4. For a request that carries a token id, when the lookup itself
    does not fail: revoking an id that is not in the table answers 404
    [Token not found], revoking a token of another user answers 403
    [Forbidden]; in both cases the only command sent is the [GetCommand]
    and the table is as before. *)
Theorem revoke_not_found_forbidden (env : Env) (event : APIGatewayProxyEvent)
    (user tokenId : string) (w : World) :
  truthy (pathParameters_id event) = Some tokenId ->
  dbFault env (GetCommand tokenId) = None ->
  (table w !! tokenId = None ->
   revokeToken env event user w =
     (Ok (respond 404 (message "Token not found")),
      logged w [DbSend (GetCommand tokenId)])) /\
  (forall item, table w !! tokenId = Some item -> userId item <> user ->
   revokeToken env event user w =
     (Ok (respond 403 (message "Forbidden")),
      logged w [DbSend (GetCommand tokenId)])).
Proof.
  intros Hid Hget. rewrite revokeToken_run, Hid, Hget. split.
  - by intros ->.
  - intros item -> Hne.
    by apply String.eqb_neq in Hne as ->.
Qed.

(** C5. Revoking a token of the caller twice: both calls answer 200, the
    first one leaves the token revoked, and the table after the second
    call is the table after the first. *)
Theorem revoke_idempotent (env env' : Env) (event : APIGatewayProxyEvent)
    (user tokenId : string) (item : ApiToken) (w : World) :
  truthy (pathParameters_id event) = Some tokenId ->
  (forall c, dbFault env c = None) ->
  (forall c, dbFault env' c = None) ->
  table w !! tokenId = Some item ->
  userId item = user ->
  let ok := Ok (respond 200 (message "Token revoked successfully")) in
  exists w1 w2,
    revokeToken env event user w = (ok, w1) /\
    revokeToken env' event user w1 = (ok, w2) /\
    table w1 !! tokenId = Some (set_revoked item) /\
    table w2 = table w1.
Proof.
  intros Hid Hf Hf' Hitem Hown ok.
  rewrite revokeToken_run, Hid, !Hf, Hitem, Hown, String.eqb_refl. simpl.
  eexists _, _. split; [reflexivity|].
  rewrite revokeToken_run, Hid, !Hf'. simpl.
  rewrite lookup_alter_eq, Hitem. simpl. rewrite Hown, String.eqb_refl. simpl.
  split; [reflexivity|]. split; [done|]. simpl.
  apply map_eq. intros k. destruct (decide (k = tokenId)) as [->|Hk].
  - by rewrite !lookup_alter_eq, Hitem.
  - by rewrite !lookup_alter_ne.
Qed.

(** C6. An issue request whose [expiresInDays] is there and below 1 or
    above 365 is answered 400 and leaves the world as it was: nothing is
    sent to the table. A request with a name and without [expiresInDays]
    is answered 201 (when the table takes the item), the stored token
    has no [expiresAt], and no [expiresAt] property is in the response. *)
Theorem issue_expiry_validation (env : Env) (event : APIGatewayProxyEvent)
    (user b : string) (request : CreateTokenRequest) (w : World) :
  truthy (body event) = Some b ->
  JSON_parse b = Ok request ->
  let out := createToken sha256hex JSON_parse env event user w in
  (forall d, expiresInDays request = Some d -> (d < 1 \/ 365 < d)%Z ->
     exists r, out = (Ok r, w) /\ statusCode r = 400%Z) /\
  (expiresInDays request = None ->
   name_missing request = false ->
   (forall c, dbFault env c = None) ->
     exists r w' t,
       out = (Ok r, w') /\ statusCode r = 201%Z /\
       table w' !! uuid env = Some t /\ expiresAt t = None /\
       has_field "expiresAt" (resultBody r) = false).
Proof.
  intros Hb Hp out. subst out. rewrite (createToken_run _ _ _ _ _ _ Hb Hp).
  split.
  - intros d Hd Hrange.
    destruct (name_missing request); [by eexists|].
    assert (expiry_invalid request = true) as ->; [|by eexists].
    unfold expiry_invalid, MAX_EXPIRY_DAYS. rewrite Hd.
    apply orb_true_iff. rewrite Z.ltb_lt, Z.gtb_gt. lia.
  - intros Hnone Hname Hf. rewrite Hname, Hf.
    assert (expiry_invalid request = false) as ->.
    { unfold expiry_invalid. by rewrite Hnone. }
    eexists _, _, _. split; [reflexivity|]. split; [reflexivity|].
    simpl. rewrite lookup_insert_eq. split; [reflexivity|].
    simpl. unfold expiry_of. rewrite Hnone. split; reflexivity.
Qed.

Lemma issue_body_no_hash (tok : string) (t : ApiToken) :
  has_field "tokenHash"
    (stringify (JObj [("token", JStr tok);
                      ("tokenInfo", JObj (omit "tokenHash" (literal t)))]))
  = false.
Proof. unfold literal. by destruct (expiresAt t). Qed.

Lemma list_body_no_hash (items : list ApiToken) :
  has_field "tokenHash"
    (stringify
       (JObj [("tokens",
               JArr (List.map
                       (fun item => JObj (omit "tokenHash" (item_object item)))
                       items))]))
  = false.
Proof.
  simpl. rewrite orb_false_r.
  induction items as [|t items IH]; [done|].
  simpl in *. rewrite IH, orb_false_r.
  unfold item_object. by destruct (lastUsedAt t), (expiresAt t).
Qed.

(** C3. Whatever the request and the table, the handler answers, and no
    property named [tokenHash] occurs anywhere in the body of the answer:
    not in the token information of an issue, not in any element of a
    list, whether the tokens are active, expired or revoked. *)
Theorem responses_never_carry_tokenHash (env : Env)
    (event : APIGatewayProxyEvent) (w : World) :
  exists r w',
    Tokens.handler sha256hex JSON_parse env event w = (Ok r, w') /\
    has_field "tokenHash" (resultBody r) = false.
Proof.
  unfold Tokens.handler, try_catch, bind, emit. simpl.
  destruct (truthy (claims_sub event)) as [user|]; [|by eexists _, _].
  destruct (String.eqb _ "POST").
  { destruct (truthy (body event)) as [b|] eqn:Hb.
    2:{ unfold createToken. rewrite Hb. by eexists _, _. }
    destruct (JSON_parse b) as [request|e] eqn:Hp.
    2:{ unfold createToken. rewrite Hb, Hp. by eexists _, _. }
    rewrite (createToken_run _ _ _ _ _ _ Hb Hp).
    destruct (name_missing request); [by eexists _, _|].
    destruct (expiry_invalid request); [by eexists _, _|].
    destruct (dbFault env _); [by eexists _, _|].
    eexists _, _. split; [reflexivity|]. apply issue_body_no_hash. }
  destruct (String.eqb _ "GET").
  { rewrite listTokens_run. destruct (dbFault env _); [by eexists _, _|].
    eexists _, _. split; [reflexivity|]. apply list_body_no_hash. }
  destruct (String.eqb _ "DELETE"); [|by eexists _, _].
  rewrite revokeToken_run.
  destruct (truthy (pathParameters_id event)) as [k|]; [|by eexists _, _].
  destruct (dbFault env (GetCommand k)); [by eexists _, _|].
  simpl. destruct (_ !! k) as [item|]; [|by eexists _, _].
  destruct (negb _); [by eexists _, _|].
  destruct (dbFault env (UpdateRevoked k)); by eexists _, _.
Qed.

Local Ltac sent Hio Hin :=
  simpl in Hio; rewrite <- ?app_assoc in Hio;
  apply app_inv_head in Hio; subst; simpl in Hin;
  intuition (try discriminate);
  repeat match goal with
         | H : DbSend _ = DbSend _ |- _ => injection H as <-
         end;
  unfold internal_error, ret; simpl; congruence.

(** C9, as amended. When a command sent to the table fails, or when
    [JSON.parse] throws on the body of an issue request, the handler
    answers 500 with the message [Internal server error] and with an
    [error] property that holds the message of the underlying error
    ([Unknown error] when what was thrown is not an [Error]); the table is
    as before. *)
Theorem failure_answer_holds_error_message (env : Env)
    (event : APIGatewayProxyEvent) (w : World) :
  let out := Tokens.handler sha256hex JSON_parse env event w in
  (forall c e evs,
     dbFault env c = Some e ->
     io (snd out) = (io w ++ evs)%list -> In (DbSend c) evs ->
     fst out = Ok (internal_error e) /\ table (snd out) = table w) /\
  (forall user b e,
     truthy (claims_sub event) = Some user ->
     httpMethod event = "POST" ->
     truthy (body event) = Some b ->
     JSON_parse b = Throw e ->
     fst out = Ok (internal_error e) /\ table (snd out) = table w).
Proof.
  unfold Tokens.handler, try_catch, bind, emit. simpl. split.
  - intros c e evs Hc Hio Hin. revert Hio.
    destruct (truthy (claims_sub event)) as [user|];
      [|intros Hio; sent Hio Hin].
    destruct (String.eqb _ "POST").
    { destruct (truthy (body event)) as [b|] eqn:Hb.
      2:{ unfold createToken. rewrite Hb. intros Hio. sent Hio Hin. }
      destruct (JSON_parse b) as [request|e'] eqn:Hp.
      2:{ unfold createToken. rewrite Hb, Hp. intros Hio. sent Hio Hin. }
      rewrite (createToken_run _ _ _ _ _ _ Hb Hp).
      destruct (name_missing request); [intros Hio; sent Hio Hin|].
      destruct (expiry_invalid request); [intros Hio; sent Hio Hin|].
      destruct (dbFault env (PutCommand _)) eqn:Hf; intros Hio; sent Hio Hin. }
    destruct (String.eqb _ "GET").
    { rewrite listTokens_run.
      destruct (dbFault env (QueryUserIdIndex _)) eqn:Hf;
        intros Hio; sent Hio Hin. }
    destruct (String.eqb _ "DELETE"); [|intros Hio; sent Hio Hin].
    rewrite revokeToken_run.
    destruct (truthy (pathParameters_id event)) as [k|];
      [|intros Hio; sent Hio Hin].
    destruct (dbFault env (GetCommand k)) eqn:Hf;
      [intros Hio; sent Hio Hin|].
    simpl. destruct (_ !! k) as [item|]; [|intros Hio; sent Hio Hin].
    destruct (negb _); [intros Hio; sent Hio Hin|].
    destruct (dbFault env (UpdateRevoked k)) eqn:Hf';
      intros Hio; sent Hio Hin.
  - intros user b e -> -> Hb Hp. simpl.
    unfold createToken. by rewrite Hb, Hp.
Qed.

End TokensFacts.

(** *** The table across invocations *)

Section Lifecycle.

Variable sha256hex : string -> string.
Variable JSON_parse : string -> result CreateTokenRequest.
Variable verify : string -> result string.

(** A query through an index gives the one record that matches. *)
Lemma scan_unique (P : ApiToken -> bool) (t : gmap string ApiToken)
    (k : string) (r : ApiToken) :
  t !! k = Some r -> P r = true ->
  (forall k' r', k' <> k -> t !! k' = Some r' -> P r' = false) ->
  scan P t = [r].
Proof.
  intros Hk HP Hothers. unfold scan.
  assert (filter (fun kv : string * ApiToken => P (snd kv) = true) t
          = {[k := r]}) as ->.
  { apply map_eq. intros k'. destruct (decide (k' = k)) as [->|Hne].
    - rewrite lookup_singleton_eq. by apply map_lookup_filter_Some.
    - rewrite lookup_singleton_ne by done.
      apply map_lookup_filter_None. right. intros r' Hr' HP'. simpl in HP'.
      rewrite (Hothers k' r' Hne Hr') in HP'. done. }
  by rewrite map_to_list_singleton.
Qed.

(** The record a hash leads to is a record of the table with that hash. *)
Lemma first_by_hash_stored (h : string) (t : gmap string ApiToken)
    (r : ApiToken) :
  first_by_hash h t = Some r ->
  exists k, t !! k = Some r /\ tokenHash r = h.
Proof.
  unfold first_by_hash, scan. intros Hhead.
  apply head_Some_elem_of in Hhead.
  apply list_elem_of_fmap in Hhead as ([k r'] & -> & Hin).
  apply elem_of_map_to_list in Hin.
  apply map_lookup_filter_Some in Hin as [Hk HP]. simpl in *.
  exists k. split; [done|]. by apply String.eqb_eq.
Qed.

(** The authorizer on a credential that is an API key. *)
Lemma handler_apikey_run (env : Env) (r arn : string) (w : World) :
  let token := TOKEN_PREFIX +:+ r in
  Authorizer.handler sha256hex verify env
    {| authorizationToken := token; methodArn := arn |} w =
  match validateApiKey sha256hex env token arn
          (logged w [ConsoleLog "Authorizer event:"]) with
  | (Ok p, w') => (Ok p, w')
  | (Throw e, w') =>
      (Throw Unauthorized, logged w' [ConsoleError "Authorization error:" e])
  end.
Proof.
  intros token. unfold Authorizer.handler; cbn [authorizationToken methodArn].
  subst token. unfold TOKEN_PREFIX.
  rewrite (startsWith_head "w" "B") by done.
  rewrite (startsWith_app "wea_" r).
  unfold bind, emit, try_catch, logged, throw. simpl.
  by destruct (validateApiKey _ _ _ _ _) as [[p|e] w'].
Qed.

(** The authorizer never changes the table. *)
Lemma authorizer_keeps_table (env : Env)
    (event : APIGatewayTokenAuthorizerEvent) (w : World) :
  table (snd (Authorizer.handler sha256hex verify env event w)) = table w.
Proof.
  unfold Authorizer.handler, validateCognitoToken,
    try_catch, bind, emit, ret, throw. simpl.
  destruct (startsWith _ "Bearer ").
  { by destruct (verify _). }
  destruct (startsWith _ "wea_"); [|done].
  rewrite validateApiKey_run.
  destruct (dbFault env _); [done|].
  destruct (first_by_hash _ _) as [r|]; [|done]. simpl.
  destruct (revoked r); [done|]. by destruct (expired env r).
Qed.

(** What the token handler can do to the table: nothing, add the new
    token (not revoked) under its UUID, or mark one token revoked. *)
Lemma tokens_handler_table (env : Env) (event : APIGatewayProxyEvent)
    (w : World) :
  let w' := snd (Tokens.handler sha256hex JSON_parse env event w) in
  table w' = table w \/
  (httpMethod event = "POST" /\
   exists t, revoked t = false /\ table w' = <[uuid env := t]> (table w)) \/
  (exists k, table w' = alter set_revoked k (table w)).
Proof.
  unfold Tokens.handler, try_catch, bind, emit. simpl.
  destruct (truthy (claims_sub event)) as [user|]; [|by left].
  destruct (String.eqb _ "POST") eqn:Hpost.
  { apply String.eqb_eq in Hpost.
    destruct (truthy (body event)) as [b|] eqn:Hb.
    2:{ unfold createToken. rewrite Hb. by left. }
    destruct (JSON_parse b) as [request|e] eqn:Hp.
    2:{ unfold createToken. rewrite Hb, Hp. by left. }
    rewrite (createToken_run _ _ _ _ _ _ _ _ Hb Hp).
    destruct (name_missing request); [by left|].
    destruct (expiry_invalid request); [by left|].
    destruct (dbFault env _); [by left|].
    right; left. split; [done|].
    by exists (new_token sha256hex env user request). }
  destruct (String.eqb _ "GET").
  { rewrite listTokens_run. left. by destruct (dbFault env _). }
  destruct (String.eqb _ "DELETE"); [|by left].
  rewrite revokeToken_run.
  destruct (truthy (pathParameters_id event)) as [k|]; [|by left].
  destruct (dbFault env (GetCommand k)); [by left|].
  simpl. destruct (_ !! k) as [item|]; [|by left].
  destruct (negb _); [by left|].
  destruct (dbFault env (UpdateRevoked k)); [by left|].
  right; right. by exists k.
Qed.

Lemma step_keeps_or_revokes (w w' : World) (k : string) (t : ApiToken) :
  step sha256hex JSON_parse verify w w' ->
  table w !! k = Some t ->
  table w' !! k = Some t \/ table w' !! k = Some (set_revoked t).
Proof.
  intros Hstep Hk. destruct Hstep as [env event w Hfresh|env event w].
  - destruct (tokens_handler_table env event w)
      as [->|[(Hpost & t' & _ & ->)|(k' & ->)]].
    + by left.
    + left. rewrite lookup_insert_ne; [done|].
      intros <-. rewrite (Hfresh Hpost) in Hk. done.
    + destruct (decide (k' = k)) as [->|Hne].
      * right. by rewrite lookup_alter_eq, Hk.
      * left. by rewrite lookup_alter_ne.
  - left. by rewrite authorizer_keeps_table.
Qed.

(** C8. A token that an invocation adds to the table is not revoked; an
    invocation leaves a stored token as it is or marks it revoked, and
    does nothing else to it; so along any sequence of invocations of the
    two handlers (issue, list, revoke, authorize) a token that is revoked
    stays in the table and stays revoked. *)
Theorem revoked_is_monotonic :
  (forall w w' k t',
     step sha256hex JSON_parse verify w w' ->
     table w !! k = None -> table w' !! k = Some t' ->
     revoked t' = false) /\
  (forall w w' k t,
     step sha256hex JSON_parse verify w w' ->
     table w !! k = Some t ->
     table w' !! k = Some t \/ table w' !! k = Some (set_revoked t)) /\
  (forall w w' k t,
     rtc (step sha256hex JSON_parse verify) w w' ->
     table w !! k = Some t -> revoked t = true ->
     exists t', table w' !! k = Some t' /\ revoked t' = true).
Proof.
  split; [|split].
  - intros w w' k t' Hstep Hnone Hk'.
    destruct Hstep as [env event w Hfresh|env event w].
    + destruct (tokens_handler_table env event w)
        as [Heq|[(Hpost & t & Hrev & Heq)|(k' & Heq)]];
        rewrite Heq in Hk'.
      * congruence.
      * destruct (decide (uuid env = k)) as [<-|Hne].
        -- rewrite lookup_insert_eq in Hk'. congruence.
        -- rewrite lookup_insert_ne in Hk' by done. congruence.
      * rewrite lookup_alter in Hk'. case_decide; subst;
          rewrite Hnone in Hk'; done.
    + rewrite authorizer_keeps_table in Hk'. congruence.
  - intros w w' k t. apply step_keeps_or_revokes.
  - intros w w' k t Hrun. revert t.
    induction Hrun as [w|w w1 w' Hstep _ IH]; intros t Hk Hrev.
    + eauto.
    + destruct (step_keeps_or_revokes _ _ _ _ Hstep Hk) as [Hk1|Hk1];
        eapply IH; eauto.
Qed.

(** C2. The round trip. A token is issued for [user] with a name and no
    expiry, its hash being the hash of no token of the table: the answer
    is 201 with the plaintext and the id. The authorizer then allows the
    plaintext, with [authType] [apikey] and the [userId] of [user]. After
    [user] revokes the token by its id, the authorizer denies the same
    plaintext with [Unauthorized]. No command fails on the way. *)
Theorem issue_verify_revoke_verify (env env1 env2 env3 : Env)
    (issue revoke : APIGatewayProxyEvent) (user b arn : string)
    (request : CreateTokenRequest) (w : World) :
  truthy (body issue) = Some b ->
  JSON_parse b = Ok request ->
  name_missing request = false ->
  expiresInDays request = None ->
  healthy env -> healthy env1 -> healthy env2 -> healthy env3 ->
  (forall k r, table w !! k = Some r ->
               tokenHash r <> sha256hex (TOKEN_PREFIX +:+ randomPart env)) ->
  truthy (pathParameters_id revoke) = Some (uuid env) ->
  let token := TOKEN_PREFIX +:+ randomPart env in
  let credential := {| authorizationToken := token; methodArn := arn |} in
  exists r1 info w1 p w2 w3 w4,
    createToken sha256hex JSON_parse env issue user w = (Ok r1, w1) /\
    statusCode r1 = 201%Z /\
    resultBody r1 = JObj [("token", JStr token); ("tokenInfo", JObj info)] /\
    get_field "id" info = Some (JStr (uuid env)) /\
    Authorizer.handler sha256hex verify env1 credential w1 = (Ok p, w2) /\
    principalId p = user /\
    context p = Some [("userId", user); ("tokenId", uuid env);
                      ("authType", "apikey")] /\
    revokeToken env2 revoke user w2 =
      (Ok (respond 200 (message "Token revoked successfully")), w3) /\
    Authorizer.handler sha256hex verify env3 credential w3 =
      (Throw Unauthorized, w4).
Proof.
  intros Hb Hp Hname Hnone Hf Hf1 Hf2 Hf3 Hfresh Hid token credential.
  set (t := new_token sha256hex env user request).
  assert (Hothers : forall k' r', k' <> uuid env ->
            table w !! k' = Some r' ->
            String.eqb (tokenHash r') (sha256hex token) = false).
  { intros k' r' _ Hr'. apply String.eqb_neq. by eapply Hfresh. }
  assert (Hexp : expiresAt t = None).
  { simpl. unfold expiry_of. by rewrite Hnone. }
  (* issue *)
  rewrite (createToken_run _ _ _ _ _ _ _ _ Hb Hp), Hname, Hf.
  assert (expiry_invalid request = false) as ->.
  { unfold expiry_invalid. by rewrite Hnone. }
  fold t. eexists _, _, _. do 4 eexists.
  split; [reflexivity|]. split; [reflexivity|].
  split. { simpl. fold token. unfold expiry_of. rewrite Hnone. reflexivity. }
  split; [reflexivity|].
  (* the first verification *)
  subst credential token. rewrite handler_apikey_run, validateApiKey_run.
  rewrite Hf1. unfold first_by_hash. simpl.
  rewrite (scan_unique _ _ (uuid env) t).
  2:{ by rewrite lookup_insert_eq. }
  2:{ simpl. apply String.eqb_refl. }
  2:{ intros k' r' Hne. rewrite lookup_insert_ne by done. by apply Hothers. }
  simpl. unfold expired. rewrite Hexp.
  split; [reflexivity|]. split; [reflexivity|]. split; [reflexivity|].
  (* the revocation *)
  rewrite revokeToken_run, Hid, !Hf2. simpl.
  rewrite lookup_insert_eq. simpl. rewrite String.eqb_refl. simpl.
  split; [reflexivity|].
  (* the second verification *)
  rewrite handler_apikey_run, validateApiKey_run.
  rewrite Hf3. unfold first_by_hash. simpl.
  rewrite (scan_unique _ _ (uuid env) (set_revoked t)).
  2:{ by rewrite lookup_alter_eq, lookup_insert_eq. }
  2:{ simpl. apply String.eqb_refl. }
  2:{ intros k' r' Hne. rewrite lookup_alter_ne, lookup_insert_ne by done.
      by apply Hothers. }
  reflexivity.
Qed.

End Lifecycle.

(** *** The theorems at concrete inputs *)

Section Instances.

Import Sample.

(** C7 as stated fails: the denial of [garbage] is [Unauthorized], not
    [Invalid token format]. *)
Lemma garbage_is_denied_as_unauthorized :
  let out := fst (Authorizer.handler digest verifier env0
                    (credential "garbage") world0) in
  out = Throw Unauthorized /\ out <> Throw InvalidFormat.
Proof. split; [reflexivity | discriminate]. Qed.

Lemma unrecognized_prefix_denied_garbage :
  Authorizer.handler digest verifier env0 (credential "garbage") world0 =
    (Throw Unauthorized,
     logged world0 [ConsoleLog "Authorizer event:";
                    ConsoleError "Authorization error:" InvalidFormat]).
Proof. apply unrecognized_prefix_denied; reflexivity. Defined.

(** C1 as stated fails: a token whose [expiresAt] is the current second
    is found by its hash and allowed, though its [expiresAt] is not after
    the current time. *)
Lemma token_at_its_expiry_second_is_allowed :
  let now := (nowMs env0 / 1000)%Z in
  first_by_hash (digest key_ci) (table world_edge) = Some tok_edge /\
  fst (validateApiKey digest env0 key_ci "arn" world_edge) =
    Ok (generatePolicy "alice" Allow "arn" (Some (apikey_context tok_edge))) /\
  ~ live_as_specified now tok_edge.
Proof.
  split; [reflexivity|]. split; [reflexivity|].
  intros [_ [Hnone|(e & He & Hlt)]]; [discriminate|].
  injection He as <-. vm_compute in Hlt. discriminate.
Qed.

Lemma validateApiKey_accepts_iff_edge :
  (forall r, first_by_hash (digest key_ci) (table world_edge) = Some r ->
             expiresAt r <> Some 0%Z) /\
  exists p, fst (validateApiKey digest env0 key_ci "arn" world_edge) = Ok p.
Proof.
  assert (H : forall r,
             first_by_hash (digest key_ci) (table world_edge) = Some r ->
             expiresAt r <> Some 0%Z).
  { intros r Hr. vm_compute in Hr. injection Hr as <-. discriminate. }
  split; [exact H|].
  destruct (validateApiKey_accepts_iff digest env0 key_ci "arn" world_edge H)
    as [Hiff _].
  eexists. apply Hiff. split; [reflexivity|].
  exists tok_edge. split; [reflexivity|]. split; [|reflexivity].
  split; [reflexivity|]. right. exists 1800000000%Z.
  split; [reflexivity|]. vm_compute. discriminate.
Defined.

Lemma healthy_env0 : healthy env0.
Proof. intros c. reflexivity. Defined.

Lemma bearer_prefix_skips_token_table_key :
  verifier key_ci = Throw (Error "Invalid JWT") /\
  (exists p, fst (Authorizer.handler digest verifier env0
                    (credential key_ci) world_ci) = Ok p) /\
  fst (Authorizer.handler digest verifier env0
         (credential ("Bearer " +:+ key_ci)) world_ci) = Throw Unauthorized.
Proof.
  split; [reflexivity|]. split; [by eexists|].
  exact (proj2 (bearer_prefix_skips_token_table digest verifier env0 key_ci
                  "arn:aws:execute-api:GET/weather" world_ci)
               (Error "Invalid JWT") eq_refl).
Defined.

Lemma revoke_not_found_forbidden_bob :
  revokeToken env0 (delete_event "alice" "0000") "alice" world_bob =
    (Ok (respond 404 (message "Token not found")),
     logged world_bob [DbSend (GetCommand "0000")]) /\
  revokeToken env0 (delete_event "alice" "b0b0cafe") "alice" world_bob =
    (Ok (respond 403 (message "Forbidden")),
     logged world_bob [DbSend (GetCommand "b0b0cafe")]).
Proof.
  split.
  - apply (proj1 (revoke_not_found_forbidden env0
                    (delete_event "alice" "0000") "alice" "0000" world_bob
                    eq_refl eq_refl)).
    reflexivity.
  - apply (proj2 (revoke_not_found_forbidden env0
                    (delete_event "alice" "b0b0cafe") "alice" "b0b0cafe"
                    world_bob eq_refl eq_refl) tok_bob).
    + reflexivity.
    + discriminate.
Defined.

Lemma revoke_idempotent_ci :
  let ok := Ok (respond 200 (message "Token revoked successfully")) in
  exists w1 w2,
    revokeToken env0 (delete_event "alice" "7d4f0a52") "alice" world_ci
      = (ok, w1) /\
    revokeToken env0 (delete_event "alice" "7d4f0a52") "alice" w1
      = (ok, w2) /\
    table w1 !! "7d4f0a52" = Some (set_revoked tok_ci) /\
    table w2 = table w1.
Proof.
  apply (revoke_idempotent env0 env0 (delete_event "alice" "7d4f0a52")
           "alice" "7d4f0a52" tok_ci world_ci);
    [reflexivity | exact healthy_env0 | exact healthy_env0
    | reflexivity | reflexivity].
Defined.

Lemma issue_expiry_validation_samples :
  (exists r,
     createToken digest parse_400_days env0 (post_event "alice" "CI") "alice"
       world0 = (Ok r, world0) /\
     statusCode r = 400%Z) /\
  (exists r w' t,
     createToken digest parse_name env0 (post_event "alice" "CI") "alice"
       world_bob = (Ok r, w') /\
     statusCode r = 201%Z /\
     table w' !! uuid env0 = Some t /\ expiresAt t = None /\
     has_field "expiresAt" (resultBody r) = false).
Proof.
  split.
  - apply (proj1 (issue_expiry_validation digest parse_400_days env0
                    (post_event "alice" "CI") "alice" "CI"
                    {| req_name := Some "CI"; expiresInDays := Some 400%Z |}
                    world0 eq_refl eq_refl) 400%Z eq_refl).
    right. reflexivity.
  - apply (proj2 (issue_expiry_validation digest parse_name env0
                    (post_event "alice" "CI") "alice" "CI"
                    {| req_name := Some "CI"; expiresInDays := None |}
                    world_bob eq_refl eq_refl) eq_refl eq_refl healthy_env0).
Defined.

(** C9 as stated fails: the text of the error of the persistence layer
    is in the body of the answer. *)
Lemma failure_text_reaches_the_caller :
  exists r w',
    Tokens.handler digest parse_name env_down (get_event "alice") world0
      = (Ok r, w') /\
    statusCode r = 500%Z /\
    resultBody r =
      JObj [("message", JStr "Internal server error");
            ("error",
             JStr "ResourceNotFoundException: Requested resource not found")].
Proof. eexists _, _. split; [reflexivity|]. split; reflexivity. Qed.

Lemma failure_answer_holds_error_message_outage :
  let out := Tokens.handler digest parse_name env_down (get_event "alice")
               world0 in
  fst out = Ok (internal_error outage) /\ table (snd out) = table world0.
Proof.
  apply (proj1 (failure_answer_holds_error_message digest parse_name env_down
                  (get_event "alice") world0)
               (QueryUserIdIndex "alice") outage
               [ConsoleLog "Event:"; DbSend (QueryUserIdIndex "alice");
                ConsoleError "Error:" outage]).
  - reflexivity.
  - reflexivity.
  - right. left. reflexivity.
Defined.

Lemma run_reaches_end : rtc (step digest parse_name verifier) world_bob run_end.
Proof.
  unfold run_end.
  eapply rtc_l; [apply (step_tokens _ _ _ env0 (post_event "alice" "CI"))|].
  { intros _. reflexivity. }
  eapply rtc_l;
    [apply (step_tokens _ _ _ env0 (delete_event "alice" "7d4f0a52"))|].
  { intros [=]. }
  eapply rtc_l; [apply (step_tokens _ _ _ env0 (get_event "alice"))|].
  { intros [=]. }
  eapply rtc_l; [apply (step_authorizer _ _ _ env0 (credential key_ci))|].
  apply rtc_refl.
Defined.

Lemma revoked_is_monotonic_run :
  (exists t', table run_end !! "b0b0cafe" = Some t' /\ revoked t' = true) /\
  (exists t', table run_end !! "7d4f0a52" = Some t' /\ revoked t' = true).
Proof.
  split.
  - apply (proj2 (proj2 (revoked_is_monotonic digest parse_name verifier))
             world_bob run_end "b0b0cafe" tok_bob run_reaches_end);
      reflexivity.
  - by eexists.
Defined.

Lemma issue_verify_revoke_verify_ci :
  let token := TOKEN_PREFIX +:+ randomPart env0 in
  exists r1 info w1 p w2 w3 w4,
    createToken digest parse_name env0 (post_event "alice" " CI ") "alice"
      world_bob = (Ok r1, w1) /\
    statusCode r1 = 201%Z /\
    resultBody r1 = JObj [("token", JStr token); ("tokenInfo", JObj info)] /\
    get_field "id" info = Some (JStr (uuid env0)) /\
    Authorizer.handler digest verifier env0 (credential token) w1
      = (Ok p, w2) /\
    principalId p = "alice" /\
    context p = Some [("userId", "alice"); ("tokenId", uuid env0);
                      ("authType", "apikey")] /\
    revokeToken env0 (delete_event "alice" "7d4f0a52") "alice" w2 =
      (Ok (respond 200 (message "Token revoked successfully")), w3) /\
    Authorizer.handler digest verifier env0 (credential token) w3 =
      (Throw Unauthorized, w4).
Proof.
  apply (issue_verify_revoke_verify digest parse_name verifier
           env0 env0 env0 env0
           (post_event "alice" " CI ") (delete_event "alice" "7d4f0a52")
           "alice" " CI " "arn:aws:execute-api:GET/weather"
           {| req_name := Some " CI "; expiresInDays := None |} world_bob);
    try reflexivity; try exact healthy_env0.
  intros k r Hk. simpl in Hk.
  apply lookup_singleton_Some in Hk as [_ <-]. discriminate.
Defined.

End Instances.

(** ** Further properties of the token handlers *)

Section TokensMore.

Variable sha256hex : string -> string.
Variable JSON_parse : string -> result CreateTokenRequest.






(** X2. A token issued with [expiresInDays = d], [d] between 1 and 365,
    expires exactly [d] days, in seconds, after the second of its issue:
    the stored [expiresAt] and the [expiresAt] of the answer are
    [floor(now / 1000) + 86400 d]. *)
Theorem issued_expiry_is_days_ahead (env : Env) (event : APIGatewayProxyEvent)
    (user b : string) (request : CreateTokenRequest) (d : Z) (w : World) :
  truthy (body event) = Some b ->
  JSON_parse b = Ok request ->
  name_missing request = false ->
  expiresInDays request = Some d ->
  (1 <= d <= 365)%Z ->
  healthy env ->
  let expiry := (nowMs env / 1000 + 86400 * d)%Z in
  exists info w' t,
    createToken sha256hex JSON_parse env event user w =
      (Ok (respond 201
             (JObj [("token", JStr (TOKEN_PREFIX +:+ randomPart env));
                    ("tokenInfo", JObj info)])), w') /\
    get_field "expiresAt" info = Some (JNum expiry) /\
    table w' !! uuid env = Some t /\ expiresAt t = Some expiry.
Proof.
  intros Hb Hp Hname Hd Hrange Hf expiry.
  assert (Hexp : expiry_of env request = Some expiry).
  { unfold expiry_of, add_days. rewrite Hd.
    replace (d =? 0)%Z with false by (symmetry; apply Z.eqb_neq; lia).
    f_equal. subst expiry.
    replace (nowMs env + d * 86400000)%Z
      with (nowMs env + (86400 * d) * 1000)%Z by lia.
    by rewrite Z.div_add by lia. }
  rewrite (createToken_run _ _ _ _ _ _ _ _ Hb Hp), Hname, Hf.
  assert (expiry_invalid request = false) as ->.
  { unfold expiry_invalid, MAX_EXPIRY_DAYS. rewrite Hd.
    apply orb_false_iff. rewrite Z.ltb_ge, Z.gtb_ltb, Z.ltb_ge. lia. }
  eexists _, _, _. split; [reflexivity|]. simpl. rewrite Hexp.
  split; [reflexivity|]. rewrite lookup_insert_eq. split; [reflexivity|].
  done.
Qed.

End TokensMore.

(** ** Further properties across the two handlers *)

Section LifecycleMore.

Variable sha256hex : string -> string.
Variable JSON_parse : string -> result CreateTokenRequest.
Variable verify : string -> result string.

Lemma elem_of_scan (P : ApiToken -> bool) (m : gmap string ApiToken)
    (t : ApiToken) :
  t ∈ scan P m <-> exists k, m !! k = Some t /\ P t = true.
Proof.
  unfold scan. rewrite list_elem_of_fmap. split.
  - intros ([k t'] & -> & Hin). apply elem_of_map_to_list in Hin.
    apply map_lookup_filter_Some in Hin as [Hk HP]. eauto.
  - intros (k & Hk & HP). exists (k, t). split; [done|].
    apply elem_of_map_to_list. by apply map_lookup_filter_Some.
Qed.

Lemma scan_insert_other (P : ApiToken -> bool) (m : gmap string ApiToken)
    (k : string) (t : ApiToken) :
  P t = false -> m !! k = None -> scan P (<[k := t]> m) = scan P m.
Proof.
  intros HP Hk. unfold scan. rewrite map_filter_insert_not'; [done| |].
  - simpl. by rewrite HP.
  - intros y Hy. congruence.
Qed.

Lemma scan_alter_other (P : ApiToken -> bool) (m : gmap string ApiToken)
    (k : string) (f : ApiToken -> ApiToken) :
  (forall x, m !! k = Some x -> P x = false /\ P (f x) = false) ->
  scan P (alter f k m) = scan P m.
Proof.
  intros Hk. unfold scan. f_equal. f_equal.
  apply map_filter_strong_ext_1. intros j x. simpl.
  destruct (decide (j = k)) as [->|Hne].
  - rewrite lookup_alter_eq. destruct (m !! k) as [y|] eqn:Hy; simpl.
    + destruct (Hk y eq_refl) as [HPy HPf]. split.
      * intros [HP [= <-]]. congruence.
      * intros [HP [= <-]]. congruence.
    + split; intros [_ [=]].
  - by rewrite lookup_alter_ne.
Qed.

(** X3. [listTokens] answers with exactly the tokens of the caller: a
    token is an element of the listing if and only if it is in the table
    and its [userId] is the caller; the table is left as it was. *)
Theorem list_returns_own_tokens (env : Env) (user : string) (w : World) :
  dbFault env (QueryUserIdIndex user) = None ->
  exists items,
    listTokens env user w =
      (Ok (respond 200 (JObj [("tokens", JArr (List.map token_view items))])),
       logged w [DbSend (QueryUserIdIndex user)]) /\
    forall t, t ∈ items <->
              exists k, table w !! k = Some t /\ userId t = user.
Proof.
  intros Hf. rewrite listTokens_run, Hf. eexists. split; [reflexivity|].
  intros t. rewrite elem_of_scan. by setoid_rewrite String.eqb_eq.
Qed.

(** X4. A successful issue adds one token and touches nothing else: under
    a UUID that is not yet a key, the table grows by one item, the new
    item is owned by the caller, not revoked, carries the hash of the
    plaintext and a [prefix] that is [wea_] followed by the first eight
    characters of the random part; every other key holds what it held. *)
Theorem issue_adds_one_token (env : Env) (event : APIGatewayProxyEvent)
    (user b : string) (request : CreateTokenRequest) (w : World) :
  truthy (body event) = Some b ->
  JSON_parse b = Ok request ->
  name_missing request = false ->
  expiry_invalid request = false ->
  healthy env ->
  table w !! uuid env = None ->
  let token := TOKEN_PREFIX +:+ randomPart env in
  exists r w' t,
    createToken sha256hex JSON_parse env event user w = (Ok r, w') /\
    statusCode r = 201%Z /\
    table w' !! uuid env = Some t /\
    userId t = user /\ revoked t = false /\
    tokenHash t = sha256hex token /\
    prefix t = TOKEN_PREFIX +:+ substring_to 8 (randomPart env) /\
    startsWith token (prefix t) = true /\
    size (table w') = S (size (table w)) /\
    forall k, k <> uuid env -> table w' !! k = table w !! k.
Proof.
  intros Hb Hp Hname Hexp Hf Hfresh token.
  rewrite (createToken_run _ _ _ _ _ _ _ _ Hb Hp), Hname, Hexp, Hf.
  eexists _, _, _. split; [reflexivity|]. split; [reflexivity|]. simpl.
  rewrite lookup_insert_eq. split; [reflexivity|].
  split; [reflexivity|]. split; [reflexivity|]. split; [reflexivity|].
  split; [reflexivity|]. split.
  { unfold TOKEN_PREFIX. change (substring_to 12 ("wea_" +:+ randomPart env))
      with ("wea_" +:+ substring_to 8 (randomPart env)).
    subst token. unfold TOKEN_PREFIX, startsWith. simpl.
    repeat (destruct (ascii_dec _ _); [|done]).
    generalize (randomPart env). intros s.
    change 8%nat with (4 + 4)%nat. generalize (4 + 4)%nat. intros n.
    revert s. induction n as [|n IH]; intros [|c s]; simpl; try done.
    destruct (ascii_dec c c); [apply IH | done]. }
  split; [by apply map_size_insert_None|].
  intros k Hk. by rewrite lookup_insert_ne.
Qed.

(** The outcome of [validateApiKey] depends on the table only through
    the record that the hash leads to. *)
Lemma validateApiKey_same_record (env : Env) (token arn : string)
    (w w' : World) :
  first_by_hash (sha256hex token) (table w')
    = first_by_hash (sha256hex token) (table w) ->
  fst (validateApiKey sha256hex env token arn w')
    = fst (validateApiKey sha256hex env token arn w).
Proof.
  intros Heq. rewrite !validateApiKey_run, Heq.
  destruct (dbFault env _); [done|].
  destruct (first_by_hash _ (table w)) as [r|]; [|done].
  destruct (revoked r); [done|]. by destruct (expired env r).
Qed.

(** X5. A token issued for [d] days, on a clock after the epoch, is
    allowed by the authorizer as long as the current second is not after
    its [expiresAt], and denied with [Unauthorized] from the next second
    on, although it was never revoked. *)
Theorem issued_token_expires (env env1 : Env) (event : APIGatewayProxyEvent)
    (user b arn : string) (request : CreateTokenRequest) (d : Z) (w : World) :
  truthy (body event) = Some b ->
  JSON_parse b = Ok request ->
  name_missing request = false ->
  expiresInDays request = Some d ->
  (1 <= d <= 365)%Z ->
  (0 <= nowMs env)%Z ->
  healthy env -> healthy env1 ->
  (forall k r, table w !! k = Some r ->
               tokenHash r <> sha256hex (TOKEN_PREFIX +:+ randomPart env)) ->
  let token := TOKEN_PREFIX +:+ randomPart env in
  let credential := {| authorizationToken := token; methodArn := arn |} in
  let expiry := (nowMs env / 1000 + 86400 * d)%Z in
  let now1 := (nowMs env1 / 1000)%Z in
  exists r1 w1,
    createToken sha256hex JSON_parse env event user w = (Ok r1, w1) /\
    statusCode r1 = 201%Z /\
    ((now1 <= expiry)%Z ->
     exists p w2,
       Authorizer.handler sha256hex verify env1 credential w1 = (Ok p, w2) /\
       principalId p = user) /\
    ((expiry < now1)%Z ->
     exists w2,
       Authorizer.handler sha256hex verify env1 credential w1
         = (Throw Unauthorized, w2)).
Proof.
  intros Hb Hp Hname Hd Hrange Hclock Hf Hf1 Hfresh token credential
    expiry now1.
  set (t := new_token sha256hex env user request).
  assert (Hexp : expiresAt t = Some expiry).
  { simpl. unfold expiry_of, add_days. rewrite Hd.
    replace (d =? 0)%Z with false by (symmetry; apply Z.eqb_neq; lia).
    f_equal. subst expiry.
    replace (nowMs env + d * 86400000)%Z
      with (nowMs env + (86400 * d) * 1000)%Z by lia.
    by rewrite Z.div_add by lia. }
  assert (Hpos : (0 < expiry)%Z).
  { subst expiry. pose proof (Z.div_pos (nowMs env) 1000 Hclock). lia. }
  rewrite (createToken_run _ _ _ _ _ _ _ _ Hb Hp), Hname, Hf.
  assert (expiry_invalid request = false) as ->.
  { unfold expiry_invalid, MAX_EXPIRY_DAYS. rewrite Hd.
    apply orb_false_iff. rewrite Z.ltb_ge, Z.gtb_ltb, Z.ltb_ge. lia. }
  fold t. eexists _, _. split; [reflexivity|]. split; [reflexivity|].
  subst credential token.
  assert (Hfound : forall l,
    first_by_hash (sha256hex (TOKEN_PREFIX +:+ randomPart env))
      (table (logged {| table := <[uuid env := t]> (table w); io := l |}
                     [ConsoleLog "Authorizer event:"])) = Some t).
  { intros l. unfold first_by_hash. simpl.
    rewrite (scan_unique _ _ (uuid env) t); [done| | |].
    - by rewrite lookup_insert_eq.
    - simpl. apply String.eqb_refl.
    - intros k' r' Hne. rewrite lookup_insert_ne by done.
      intros Hr'. apply String.eqb_neq. by eapply Hfresh. }
  split.
  - intros Hnow. rewrite handler_apikey_run, validateApiKey_run, Hf1, Hfound.
    simpl. unfold expired. rewrite Hexp. fold now1.
    replace (expiry <? now1)%Z with false by (symmetry; apply Z.ltb_ge; lia).
    rewrite andb_false_r. by eexists _, _.
  - intros Hnow. rewrite handler_apikey_run, validateApiKey_run, Hf1, Hfound.
    simpl. unfold expired. rewrite Hexp. fold now1.
    replace (expiry <? now1)%Z with true by (symmetry; apply Z.ltb_lt; lia).
    replace (expiry =? 0)%Z with false by (symmetry; apply Z.eqb_neq; lia).
    simpl. by eexists.
Qed.

(** X6. Issuing a token does not change what the authorizer answers for
    any key with another hash: the outcome of [validateApiKey] for such a
    key is the same before and after the issue. *)
Theorem issue_keeps_other_keys (env env1 : Env) (event : APIGatewayProxyEvent)
    (user key arn : string) (w : World) :
  table w !! uuid env = None ->
  sha256hex key <> sha256hex (TOKEN_PREFIX +:+ randomPart env) ->
  let w' := snd (createToken sha256hex JSON_parse env event user w) in
  fst (validateApiKey sha256hex env1 key arn w')
    = fst (validateApiKey sha256hex env1 key arn w).
Proof.
  intros Hfresh Hne w'. apply validateApiKey_same_record. subst w'.
  unfold createToken.
  destruct (truthy (body event)) as [b|]; [|done].
  destruct (JSON_parse b) as [request|e]; [|done].
  destruct (name_missing request); [done|].
  destruct (expiry_invalid request); [done|].
  unfold bind, send, ret. destruct (dbFault env _); [done|]. simpl.
  unfold first_by_hash. rewrite scan_insert_other; [done| |done].
  simpl. apply String.eqb_neq. congruence.
Qed.

(** X7. Revoking a token does not change what the authorizer answers for
    a key whose hash is not the hash of that token. *)
Theorem revoke_keeps_other_keys (env env1 : Env) (event : APIGatewayProxyEvent)
    (user key arn : string) (w : World) :
  (forall k item, truthy (pathParameters_id event) = Some k ->
                  table w !! k = Some item ->
                  tokenHash item <> sha256hex key) ->
  let w' := snd (revokeToken env event user w) in
  fst (validateApiKey sha256hex env1 key arn w')
    = fst (validateApiKey sha256hex env1 key arn w).
Proof.
  intros Hother w'. apply validateApiKey_same_record. subst w'.
  rewrite revokeToken_run.
  destruct (truthy (pathParameters_id event)) as [k|]; [|done].
  destruct (dbFault env (GetCommand k)); [done|].
  destruct (table w !! k) as [item|] eqn:Hk; [|done].
  destruct (negb _); [done|].
  destruct (dbFault env (UpdateRevoked k)); [done|]. simpl.
  unfold first_by_hash. rewrite scan_alter_other; [done|].
  intros x Hx. simpl. rewrite Hk in Hx. injection Hx as <-.
  split; apply String.eqb_neq; by eapply Hother.
Qed.

(** X8. After a successful issue under a fresh UUID, the listing of the
    caller holds the new token (without its hash), and the listing of any
    other user is what it was before. *)
Theorem issue_then_list (env env1 : Env) (event : APIGatewayProxyEvent)
    (user other b : string) (request : CreateTokenRequest) (w : World) :
  truthy (body event) = Some b ->
  JSON_parse b = Ok request ->
  name_missing request = false ->
  expiry_invalid request = false ->
  healthy env -> healthy env1 ->
  table w !! uuid env = None ->
  other <> user ->
  let t := new_token sha256hex env user request in
  exists r w1 items,
    createToken sha256hex JSON_parse env event user w = (Ok r, w1) /\
    listTokens env1 user w1 =
      (Ok (respond 200 (JObj [("tokens", JArr (List.map token_view items))])),
       logged w1 [DbSend (QueryUserIdIndex user)]) /\
    t ∈ items /\ has_field "tokenHash" (token_view t) = false /\
    fst (listTokens env1 other w1) = fst (listTokens env1 other w).
Proof.
  intros Hb Hp Hname Hexp Hf Hf1 Hfresh Hother t.
  rewrite (createToken_run _ _ _ _ _ _ _ _ Hb Hp), Hname, Hexp, Hf.
  fold t. eexists _, _, _. split; [reflexivity|].
  rewrite !listTokens_run, !Hf1. split; [reflexivity|]. simpl. split.
  - apply elem_of_scan. exists (uuid env). rewrite lookup_insert_eq.
    split; [done|]. simpl. apply String.eqb_refl.
  - split.
    + unfold token_view, item_object. simpl.
      by destruct (expiry_of env request).
    + rewrite scan_insert_other; [done| |done].
      simpl. apply String.eqb_neq. congruence.
Qed.

End LifecycleMore.

(** ** Further properties of the two entry points *)

Section EntryPoints.

Variable sha256hex : string -> string.
Variable JSON_parse : string -> result CreateTokenRequest.
Variable verify : string -> result string.

(** X9. The token handler writes only when it reports success: it always
    answers, and the table is as before unless the request is a POST
    answered 201 or a DELETE answered 200. In particular no answer with
    a 4xx or 5xx status, and no GET, changes the table. *)
Theorem table_changes_only_on_success (env : Env)
    (event : APIGatewayProxyEvent) (w : World) :
  exists r w',
    Tokens.handler sha256hex JSON_parse env event w = (Ok r, w') /\
    (table w' = table w \/
     (httpMethod event = "POST" /\ statusCode r = 201%Z) \/
     (httpMethod event = "DELETE" /\ statusCode r = 200%Z)).
Proof.
  unfold Tokens.handler, try_catch, bind, emit. simpl.
  destruct (truthy (claims_sub event)) as [user|];
    [|by eexists _, _; split; [|left]].
  destruct (String.eqb _ "POST") eqn:Hpost.
  { apply String.eqb_eq in Hpost.
    destruct (truthy (body event)) as [b|] eqn:Hb.
    2:{ unfold createToken. rewrite Hb. by eexists _, _; split; [|left]. }
    destruct (JSON_parse b) as [request|e] eqn:Hp.
    2:{ unfold createToken. rewrite Hb, Hp.
        by eexists _, _; split; [|left]. }
    rewrite (createToken_run _ _ _ _ _ _ _ _ Hb Hp).
    destruct (name_missing request); [by eexists _, _; split; [|left]|].
    destruct (expiry_invalid request); [by eexists _, _; split; [|left]|].
    destruct (dbFault env _); [by eexists _, _; split; [|left]|].
    eexists _, _. split; [reflexivity|]. right; left. done. }
  destruct (String.eqb _ "GET").
  { rewrite listTokens_run.
    destruct (dbFault env _); by eexists _, _; split; [|left]. }
  destruct (String.eqb _ "DELETE") eqn:Hdel;
    [|by eexists _, _; split; [|left]].
  apply String.eqb_eq in Hdel. rewrite revokeToken_run.
  destruct (truthy (pathParameters_id event)) as [k|];
    [|by eexists _, _; split; [|left]].
  destruct (dbFault env (GetCommand k)); [by eexists _, _; split; [|left]|].
  simpl. destruct (_ !! k) as [item|]; [|by eexists _, _; split; [|left]].
  destruct (negb _); [by eexists _, _; split; [|left]|].
  destruct (dbFault env (UpdateRevoked k));
    [by eexists _, _; split; [|left]|].
  eexists _, _. split; [reflexivity|]. right; right. done.
Qed.

(** X10. A request without a subject claim is answered 401, and a request
    of an authenticated user with a method other than POST, GET and
    DELETE is answered 405; in both cases the handler only writes its
    log line: no command is sent to the table. *)
Theorem unauthenticated_or_unknown_method (env : Env)
    (event : APIGatewayProxyEvent) (w : World) :
  truthy (claims_sub event) = None \/
  (httpMethod event <> "POST" /\ httpMethod event <> "GET" /\
   httpMethod event <> "DELETE") ->
  Tokens.handler sha256hex JSON_parse env event w =
    (Ok (match truthy (claims_sub event) with
         | None => respond 401 (message "Unauthorized")
         | Some _ => respond 405 (message "Method not allowed")
         end),
     logged w [ConsoleLog "Event:"]).
Proof.
  unfold Tokens.handler, try_catch, bind, emit. simpl.
  destruct (truthy (claims_sub event)) as [user|]; [|done].
  intros [[=]|(Hp & Hg & Hd)].
  apply String.eqb_neq in Hp, Hg, Hd. by rewrite Hp, Hg, Hd.
Qed.

(** X11. Whatever the credential and the table, the authorizer leaves the
    table as it is, and either throws [Unauthorized] or returns a policy
    whose single statement allows [execute-api:Invoke] on the method of
    the request, with the principal as [userId] of its context. It never
    returns a [Deny] policy and never throws another error. *)
Theorem authorizer_allows_or_throws_unauthorized (env : Env)
    (event : APIGatewayTokenAuthorizerEvent) (w : World) :
  let out := Authorizer.handler sha256hex verify env event w in
  table (snd out) = table w /\
  (fst out = Throw Unauthorized \/
   exists p ctx,
     fst out = Ok p /\
     policyDocument p =
       {| Version := "2012-10-17";
          Statements := [ {| Action := "execute-api:Invoke";
                             Effect := Allow;
                             Resource := methodArn event |} ] |} /\
     context p = Some ctx /\ In ("userId", principalId p) ctx).
Proof.
  split; [apply authorizer_keeps_table|].
  unfold Authorizer.handler, validateCognitoToken,
    try_catch, bind, emit, ret, throw. simpl.
  destruct (startsWith _ "Bearer ").
  { destruct (verify _) as [sub|e]; simpl; [|by left].
    right. eexists _, _. split; [reflexivity|]. split; [reflexivity|].
    split; [reflexivity|]. by left. }
  destruct (startsWith _ "wea_"); [|by left].
  rewrite validateApiKey_run.
  destruct (dbFault env _); [by left|].
  destruct (first_by_hash _ _) as [r|]; [|by left]. simpl.
  destruct (revoked r); [by left|]. destruct (expired env r); [by left|].
  right. eexists _, _. split; [reflexivity|]. split; [reflexivity|].
  split; [reflexivity|]. by left.
Qed.

(** X12. A credential that begins with [wea_] never reaches the JWT
    verifier, and the authorizer sends exactly one command for it: the
    query of the index on [tokenHash] with the hash of the whole
    credential. *)
Theorem api_key_costs_one_query (env : Env) (r arn : string) (w : World) :
  let token := TOKEN_PREFIX +:+ r in
  let out := Authorizer.handler sha256hex verify env
               {| authorizationToken := token; methodArn := arn |} w in
  exists evs,
    snd out = logged w evs /\
    existsb is_verify evs = false /\
    List.filter is_send evs = [DbSend (QueryTokenHashIndex (sha256hex token))].
Proof.
  intros token out. subst out token. rewrite handler_apikey_run.
  rewrite validateApiKey_run.
  destruct (dbFault env _).
  { eexists. unfold logged. simpl. rewrite <- !app_assoc. done. }
  destruct (first_by_hash _ _) as [t|].
  2:{ eexists. unfold logged. simpl. rewrite <- !app_assoc. done. }
  simpl. destruct (revoked t).
  { eexists. unfold logged. simpl. rewrite <- !app_assoc. done. }
  destruct (expired env t);
    eexists; unfold logged; simpl; rewrite <- !app_assoc; done.
Qed.

(** X13. A [Bearer] credential whose token the Cognito verifier accepts is
    allowed with the [sub] of the token as principal and as [userId], and
    with [authType] [cognito]; the table is not consulted. *)
Theorem verified_cognito_token_allowed (env : Env) (t sub arn : string)
    (w : World) :
  verify t = Ok sub ->
  Authorizer.handler sha256hex verify env
    {| authorizationToken := "Bearer " +:+ t; methodArn := arn |} w =
  (Ok (generatePolicy sub Allow arn
         (Some [("userId", sub); ("authType", "cognito")])),
   logged w [ConsoleLog "Authorizer event:"; JwtVerify t;
             ConsoleLog "Cognito token validated for user:"]).
Proof.
  intros Hv.
  unfold Authorizer.handler; cbn [authorizationToken methodArn].
  rewrite (startsWith_app "Bearer " t).
  change 7%nat with (String.length "Bearer ").
  rewrite substring_from_app.
  unfold validateCognitoToken, try_catch, bind, emit, ret, throw, logged.
  simpl. rewrite Hv. simpl. by rewrite <- !app_assoc.
Qed.

End EntryPoints.

(** ** [processForecastData] *)

Section NumberFacts.

Import Num.

Lemma leb_refl (a : number) : leb a a = true.
Proof.
  destruct a as [|q|]; simpl; try done.
  apply QArith_base.Qle_bool_iff, QArith_base.Qle_refl.
Qed.

Lemma leb_trans (a b c : number) :
  leb a b = true -> leb b c = true -> leb a c = true.
Proof.
  destruct a as [|p|], b as [|q|], c as [|r|]; simpl; try done.
  rewrite !QArith_base.Qle_bool_iff. apply QArith_base.Qle_trans.
Qed.

Lemma leb_total (a b : number) : leb a b = false -> leb b a = true.
Proof.
  destruct a as [|p|], b as [|q|]; simpl; try done.
  intros H. apply QArith_base.Qle_bool_iff, QArith_base.Qlt_le_weak,
    QArith_base.Qnot_le_lt.
  intros Hle. apply QArith_base.Qle_bool_iff in Hle. congruence.
Qed.

Lemma fold_min2_le (xs : list number) (a : number) :
  leb (fold_left min2 xs a) a = true /\
  forall x, x ∈ xs -> leb (fold_left min2 xs a) x = true.
Proof.
  revert a. induction xs as [|y xs IH]; intros a; simpl.
  { split; [apply leb_refl|]. intros x Hx. by apply elem_of_nil in Hx. }
  destruct (IH (min2 a y)) as [Hacc Hall].
  assert (Ha : leb (min2 a y) a = true).
  { unfold min2. destruct (leb a y) eqn:E; [apply leb_refl|].
    by apply leb_total. }
  assert (Hy : leb (min2 a y) y = true).
  { unfold min2. destruct (leb a y) eqn:E; [done|apply leb_refl]. }
  split; [by eapply leb_trans|].
  intros x [->|Hx]%elem_of_cons; [by eapply leb_trans|auto].
Qed.

Lemma fold_max2_ge (xs : list number) (a : number) :
  leb a (fold_left max2 xs a) = true /\
  forall x, x ∈ xs -> leb x (fold_left max2 xs a) = true.
Proof.
  revert a. induction xs as [|y xs IH]; intros a; simpl.
  { split; [apply leb_refl|]. intros x Hx. by apply elem_of_nil in Hx. }
  destruct (IH (max2 a y)) as [Hacc Hall].
  assert (Ha : leb a (max2 a y) = true).
  { unfold max2. destruct (leb a y) eqn:E; [done|apply leb_refl]. }
  assert (Hy : leb y (max2 a y) = true).
  { unfold max2. destruct (leb a y) eqn:E; [apply leb_refl|].
    by apply leb_total. }
  split; [by eapply leb_trans|].
  intros x [->|Hx]%elem_of_cons; [by eapply leb_trans|auto].
Qed.

Lemma Math_min_le (xs : list number) (x : number) :
  x ∈ xs -> leb (Math_min xs) x = true.
Proof. apply fold_min2_le. Qed.

Lemma Math_max_ge (xs : list number) (x : number) :
  x ∈ xs -> leb x (Math_max xs) = true.
Proof. apply fold_max2_ge. Qed.

Lemma Math_min_le_max (xs : list number) :
  xs <> [] -> leb (Math_min xs) (Math_max xs) = true.
Proof.
  destruct xs as [|x xs]; [done|]. intros _.
  apply (leb_trans _ x); [apply Math_min_le | apply Math_max_ge]; by left.
Qed.

End NumberFacts.

Section ForecastFacts.

Import Num Forecast.

Variable toISOString : Z -> string.
Variable localeCompare : string -> string -> Z.

Local Abbreviation date_of := (date_of toISOString).
Local Abbreviation add_item := (add_item toISOString).
Local Abbreviation group := (group toISOString).
Local Abbreviation of_day := (of_day toISOString).
Local Abbreviation day_of := (day_of toISOString).
Local Abbreviation grouped := (grouped toISOString).

Lemma Map_has_iff (k : string) (m : list (string * DayData)) :
  Map_has k m = true <-> k ∈ m.*1.
Proof.
  unfold Map_has. rewrite existsb_exists, list_elem_of_fmap. split.
  - intros ([k' v] & Hin & Heq). apply String.eqb_eq in Heq. simpl in Heq.
    subst. exists (k, v). split; [done|]. by apply list_elem_of_In.
  - intros ([k' v] & -> & Hin). exists (k', v).
    split; [by apply list_elem_of_In|]. apply String.eqb_refl.
Qed.

Lemma Map_adjust_keys (k : string) (f : DayData -> DayData)
    (m : list (string * DayData)) :
  (Map_adjust k f m).*1 = m.*1.
Proof.
  unfold Map_adjust. induction m as [|[k' v] m IH]; simpl; [done|].
  f_equal; [|done]. by destruct (String.eqb k' k).
Qed.

Lemma elem_of_Map_adjust (k : string) (f : DayData -> DayData)
    (m : list (string * DayData)) (d : string) (data' : DayData) :
  (d, data') ∈ Map_adjust k f m <->
  exists data, (d, data) ∈ m /\
               data' = if String.eqb d k then f data else data.
Proof.
  unfold Map_adjust.
  change (List.map ?g m) with (g <$> m). rewrite list_elem_of_fmap. split.
  - intros ([k' v] & Heq & Hin). simpl in Heq.
    destruct (String.eqb k' k) eqn:E; injection Heq as -> ->;
      exists v; by rewrite E.
  - intros (data & Hin & ->). exists (d, data). split; [|done]. simpl.
    by destruct (String.eqb d k).
Qed.

Lemma day_of_snoc (d : string) (seen : list Owm.Entry.t)
    (item : Owm.Entry.t) :
  day_of d (seen ++ [item]) =
    if String.eqb d (date_of item) then push item (day_of d seen)
    else day_of d seen.
Proof.
  unfold Forecast.day_of, Forecast.of_day. rewrite filter_app, fold_left_app.
  destruct (String.eqb d (date_of item)) eqn:E.
  - apply String.eqb_eq in E. by rewrite filter_cons_True.
  - apply String.eqb_neq in E. by rewrite filter_cons_False.
Qed.

Lemma of_day_snoc (d : string) (seen : list Owm.Entry.t)
    (item : Owm.Entry.t) :
  of_day d seen <> [] -> of_day d (seen ++ [item]) <> [].
Proof.
  unfold Forecast.of_day. rewrite filter_app. by destruct (filter _ seen).
Qed.

Lemma grouped_step (m : list (string * DayData)) (seen : list Owm.Entry.t)
    (item : Owm.Entry.t) :
  grouped m seen -> grouped (add_item m item) (seen ++ [item]).
Proof.
  intros (Hnd & Hdata & Hkeys). unfold Forecast.add_item.
  destruct (Map_has (date_of item) m) eqn:Hhas.
  - apply Map_has_iff in Hhas. split; [|split].
    + by rewrite Map_adjust_keys.
    + intros d data' (data & Hin & ->)%elem_of_Map_adjust.
      destruct (Hdata d data Hin) as [-> Hne].
      split; [by rewrite day_of_snoc | by apply of_day_snoc].
    + rewrite Map_adjust_keys.
      intros it [Hit|Hit]%elem_of_app; [auto|].
      apply list_elem_of_singleton in Hit as ->. done.
  - assert (Hnew : date_of item ∉ m.*1).
    { intros Hin. apply Map_has_iff in Hin. congruence. }
    assert (Hnone : of_day (date_of item) seen = []).
    { unfold Forecast.of_day.
      destruct (filter _ seen) as [|it l] eqn:E; [done|].
      assert (Hit : it ∈ filter (fun i => date_of i = date_of item) seen)
        by (rewrite E; by left).
      apply list_elem_of_filter in Hit as [Heq Hit].
      exfalso. apply Hnew. rewrite <- Heq. by apply Hkeys. }
    unfold Map_set. split; [|split].
    + rewrite Map_adjust_keys, fmap_app. simpl. apply NoDup_app.
      split; [done|]. split; [|apply NoDup_singleton].
      intros x Hx ->%list_elem_of_singleton. done.
    + intros d data' (data & Hin & ->)%elem_of_Map_adjust.
      apply elem_of_app in Hin as [Hin|Hin].
      * destruct (Hdata d data Hin) as [-> Hne].
        split; [by rewrite day_of_snoc | by apply of_day_snoc].
      * apply list_elem_of_singleton in Hin. injection Hin as -> ->.
        rewrite String.eqb_refl. split.
        -- rewrite day_of_snoc, String.eqb_refl. unfold Forecast.day_of.
           by rewrite Hnone.
        -- unfold Forecast.of_day.
           rewrite filter_app, filter_cons_True by done.
           by destruct (filter _ seen).
    + rewrite Map_adjust_keys, fmap_app. simpl.
      intros it [Hit|Hit]%elem_of_app; apply elem_of_app.
      * left. auto.
      * right. apply list_elem_of_singleton in Hit as ->. by left.
Qed.

Lemma grouped_fold (items : list Owm.Entry.t)
    (m : list (string * DayData)) (seen : list Owm.Entry.t) :
  grouped m seen -> grouped (fold_left add_item items m) (seen ++ items).
Proof.
  revert m seen. induction items as [|item items IH]; intros m seen H.
  - by rewrite app_nil_r.
  - simpl.
    replace (seen ++ item :: items)%list
      with ((seen ++ [item]) ++ items)%list by (by rewrite <- app_assoc).
    apply IH. by apply grouped_step.
Qed.

Lemma grouped_group (items : list Owm.Entry.t) :
  grouped (group items) items.
Proof.
  apply (grouped_fold items [] []). split; [constructor|].
  split; [|by intros it Hit%elem_of_nil].
  by intros d data Hin%elem_of_nil.
Qed.

Lemma temps_fold (l : list Owm.Entry.t) (day0 : DayData) (x : number) :
  x ∈ temps (fold_left (fun day item => push item day) l day0) <->
  x ∈ temps day0 \/
  exists item, item ∈ l /\
               (x = Owm.Entry.temp_min item \/ x = Owm.Entry.temp_max item).
Proof.
  revert day0. induction l as [|it l IH]; intros day0; simpl.
  - split; [by left|]. intros [H|(item & Hin & _)]; [done|].
    by apply elem_of_nil in Hin.
  - rewrite IH. simpl. rewrite elem_of_app, !elem_of_cons, elem_of_nil.
    split.
    + intros [[H|[H|[H|[]]]]|(item & Hin & H)].
      * by left.
      * right. exists it. split; [by left | by left].
      * right. exists it. split; [by left | by right].
      * right. exists item. split; [by right | done].
    + intros [H|(item & [->|Hin]%elem_of_cons & H)].
      * left. by left.
      * left. right. destruct H; [by left | right; by left].
      * right. eauto.
Qed.

Lemma precipitation_fold (l : list Owm.Entry.t) (day0 : DayData)
    (x : number) :
  x ∈ precipitation (fold_left (fun day item => push item day) l day0) <->
  x ∈ precipitation day0 \/
  exists item, item ∈ l /\ x = Owm.Entry.pop item.
Proof.
  revert day0. induction l as [|it l IH]; intros day0; simpl.
  - split; [by left|]. intros [H|(item & Hin & _)]; [done|].
    by apply elem_of_nil in Hin.
  - rewrite IH. simpl. rewrite elem_of_app, elem_of_cons, elem_of_nil.
    split.
    + intros [[H|[H|[]]]|(item & Hin & H)].
      * by left.
      * right. exists it. split; [by left | done].
      * right. exists item. split; [by right | done].
    + intros [H|(item & [->|Hin]%elem_of_cons & H)].
      * left. by left.
      * left. right. by left.
      * right. eauto.
Qed.

Local Abbreviation date_le :=
  (fun f g : WeatherForecast.t =>
     (localeCompare (WeatherForecast.date f) (WeatherForecast.date g) <= 0)%Z).

Lemma insert_Permutation (x : WeatherForecast.t)
    (l : list WeatherForecast.t) :
  insert localeCompare x l ≡ₚ x :: l.
Proof.
  induction l as [|y l IH]; simpl; [done|].
  destruct (_ <? 0)%Z; [done|]. rewrite IH. apply Permutation_swap.
Qed.

Lemma sort_Permutation (l : list WeatherForecast.t) :
  sort localeCompare l ≡ₚ l.
Proof.
  unfold sort.
  assert (H : forall acc,
             fold_left (fun acc x => insert localeCompare x acc) l acc
               ≡ₚ acc ++ l).
  { induction l as [|x l IH]; intros acc; simpl.
    - by rewrite app_nil_r.
    - rewrite IH, insert_Permutation.
      by rewrite (Permutation_middle acc l x). }
  by rewrite H.
Qed.

Section Ordered.

Hypothesis compare_opposite :
  forall a b, (0 <= localeCompare a b)%Z -> (localeCompare b a <= 0)%Z.
Hypothesis compare_transitive :
  forall a b c, (localeCompare a b <= 0)%Z -> (localeCompare b c <= 0)%Z ->
                (localeCompare a c <= 0)%Z.

Lemma insert_sorted (x : WeatherForecast.t) (l : list WeatherForecast.t) :
  StronglySorted date_le l ->
  StronglySorted date_le (insert localeCompare x l).
Proof.
  induction 1 as [|y l Hl IH Hy]; simpl.
  - repeat constructor.
  - destruct (_ <? 0)%Z eqn:E.
    + apply Z.ltb_lt in E. constructor; [by constructor|].
      constructor; [lia|].
      eapply Forall_impl; [exact Hy|]. simpl. intros z Hz.
      eapply compare_transitive; [|exact Hz]. lia.
    + apply Z.ltb_ge in E. constructor; [done|].
      rewrite insert_Permutation. constructor; [|done].
      by apply compare_opposite.
Qed.

Lemma sort_sorted (l : list WeatherForecast.t) :
  StronglySorted date_le (sort localeCompare l).
Proof.
  unfold sort.
  assert (H : forall acc, StronglySorted date_le acc ->
             StronglySorted date_le
               (fold_left (fun acc x => insert localeCompare x acc) l acc)).
  { induction l as [|x l IH]; intros acc Hacc; simpl; [done|].
    apply IH. by apply insert_sorted. }
  apply H. constructor.
Qed.

End Ordered.

Lemma dates_of_aggregates (m : list (string * DayData)) :
  WeatherForecast.date <$> (List.map aggregate m) = m.*1.
Proof. induction m as [|[d v] m IH]; simpl; [done|]. by f_equal. Qed.

(** X14. [processForecastData] returns at most five days, no date twice,
    and each of them is the UTC date of an entry of the forecast. *)
Theorem forecast_days (items : list Owm.Entry.t) :
  let days := processForecastData toISOString localeCompare items in
  (length days <= 5)%nat /\
  NoDup (WeatherForecast.date <$> days) /\
  forall f, f ∈ days ->
            exists item, item ∈ items /\
                         date_of item = WeatherForecast.date f.
Proof.
  intros days. subst days. unfold processForecastData.
  destruct (grouped_group items) as (Hnd & Hdata & Hkeys).
  set (L := List.map aggregate (group items)).
  assert (Hperm : sort localeCompare L ≡ₚ L) by apply sort_Permutation.
  split; [rewrite length_take; lia|]. split.
  - rewrite fmap_take. eapply sublist_NoDup; [|apply sublist_take].
    rewrite Hperm. subst L. by rewrite dates_of_aggregates.
  - intros f Hf. apply subseteq_take in Hf. rewrite Hperm in Hf.
    subst L. change (List.map ?g ?l) with (g <$> l) in Hf.
    apply list_elem_of_fmap in Hf as ([d data] & -> & Hin). simpl.
    destruct (Hdata d data Hin) as [_ Hne].
    unfold Forecast.of_day in Hne.
    destruct (filter _ items) as [|it l] eqn:E; [done|].
    assert (Hit : it ∈ filter (fun i => date_of i = d) items)
      by (rewrite E; by left).
    apply list_elem_of_filter in Hit as [Heq Hit]. eauto.
Qed.

(** X15. The aggregates of a returned day bound the entries of that day:
    its [tempMin] is at most the [temp_min] and its [tempMax] at least
    the [temp_max] of every entry whose UTC date is that day, its
    [precipitation] is at least the [pop] of each of them, and [tempMin]
    is at most [tempMax]. *)
Theorem forecast_bounds (items : list Owm.Entry.t) (f : WeatherForecast.t) :
  f ∈ processForecastData toISOString localeCompare items ->
  leb (WeatherForecast.tempMin f) (WeatherForecast.tempMax f) = true /\
  forall item, item ∈ items -> date_of item = WeatherForecast.date f ->
    leb (WeatherForecast.tempMin f) (Owm.Entry.temp_min item) = true /\
    leb (Owm.Entry.temp_max item) (WeatherForecast.tempMax f) = true /\
    leb (Owm.Entry.pop item) (WeatherForecast.precipitation f) = true.
Proof.
  unfold processForecastData. intros Hf.
  destruct (grouped_group items) as (Hnd & Hdata & Hkeys).
  apply subseteq_take in Hf. rewrite sort_Permutation in Hf.
  change (List.map ?g ?l) with (g <$> l) in Hf.
  apply list_elem_of_fmap in Hf as ([d data] & -> & Hin). simpl.
  destruct (Hdata d data Hin) as [-> Hne]. unfold Forecast.day_of.
  split.
  - apply Math_min_le_max.
    destruct (Forecast.of_day toISOString d items) as [|it l] eqn:E;
      [done|].
    intros Hnil.
    assert (Hx : Owm.Entry.temp_min it ∈
              temps (fold_left (fun day item => push item day) (it :: l)
                       empty_day)).
    { apply temps_fold. right. exists it. split; [by left | by left]. }
    rewrite Hnil in Hx. by apply elem_of_nil in Hx.
  - intros item Hitem Hdate.
    assert (Hday : item ∈ Forecast.of_day toISOString d items).
    { apply list_elem_of_filter. done. }
    split; [|split].
    + apply Math_min_le, temps_fold. right. exists item. split; [done|].
      by left.
    + apply Math_max_ge, temps_fold. right. exists item. split; [done|].
      by right.
    + apply Math_max_ge, precipitation_fold. right. by exists item.
Qed.

(** X16. When [localeCompare] orders the dates (the sign of [b] against
    [a] is opposite to that of [a] against [b], and being not after is
    transitive), the returned days are in ascending order of date, and
    they are the earliest ones: an entry whose date is not returned has a
    date that no returned day is after. *)
Theorem forecast_sorted_earliest (items : list Owm.Entry.t) :
  (forall a b, (0 <= localeCompare a b)%Z -> (localeCompare b a <= 0)%Z) ->
  (forall a b c, (localeCompare a b <= 0)%Z -> (localeCompare b c <= 0)%Z ->
                 (localeCompare a c <= 0)%Z) ->
  let days := processForecastData toISOString localeCompare items in
  StronglySorted date_le days /\
  forall item, item ∈ items ->
    date_of item ∉ WeatherForecast.date <$> days ->
    forall f, f ∈ days ->
      (localeCompare (WeatherForecast.date f) (date_of item) <= 0)%Z.
Proof.
  intros Hopp Htrans days. subst days. unfold processForecastData.
  destruct (grouped_group items) as (Hnd & Hdata & Hkeys).
  set (L := List.map aggregate (group items)).
  pose proof (sort_sorted Hopp Htrans L) as Hsorted.
  pose proof (sort_Permutation L) as Hperm.
  rewrite <- (take_drop 5 (sort localeCompare L)) in Hsorted.
  apply StronglySorted_app in Hsorted as (Hcross & Htake & Hdrop).
  split; [done|].
  intros item Hitem Hnot f Hf.
  assert (Hin : date_of item ∈ WeatherForecast.date <$> sort localeCompare L).
  { rewrite Hperm. subst L. rewrite dates_of_aggregates. by apply Hkeys. }
  rewrite <- (take_drop 5 (sort localeCompare L)), fmap_app in Hin.
  apply elem_of_app in Hin as [Hin|Hin]; [done|].
  apply list_elem_of_fmap in Hin as (g & Hg & Hgin).
  rewrite Hg. by apply Hcross.
Qed.

(** X17. No day is lost when the forecast spans at most five dates: then
    the date of every entry is the date of a returned day. *)
Theorem forecast_no_day_lost (items : list Owm.Entry.t) (dates : list string) :
  (length dates <= 5)%nat ->
  (forall item, item ∈ items -> date_of item ∈ dates) ->
  forall item, item ∈ items ->
    date_of item ∈
      WeatherForecast.date
        <$> processForecastData toISOString localeCompare items.
Proof.
  intros Hlen Hdates item Hitem. unfold processForecastData.
  destruct (grouped_group items) as (Hnd & Hdata & Hkeys).
  set (L := List.map aggregate (group items)).
  assert (Hkeys_in : forall d, d ∈ (group items).*1 -> d ∈ dates).
  { intros d ([d' data] & -> & Hin)%list_elem_of_fmap. simpl.
    destruct (Hdata d' data Hin) as [_ Hne]. unfold Forecast.of_day in Hne.
    destruct (filter _ items) as [|it l] eqn:E; [done|].
    assert (Hit : it ∈ filter (fun i => date_of i = d') items)
      by (rewrite E; by left).
    apply list_elem_of_filter in Hit as [<- Hit]. auto. }
  assert (Hshort : (length (sort localeCompare L) <= 5)%nat).
  { rewrite sort_Permutation. subst L. rewrite length_map.
    rewrite <- (length_fmap fst).
    etrans; [|exact Hlen]. apply submseteq_length.
    by apply NoDup_submseteq. }
  rewrite take_ge by done. rewrite sort_Permutation. subst L.
  rewrite dates_of_aggregates. by apply Hkeys.
Qed.

End ForecastFacts.

(** ** The subscriptions and the weather handlers *)

Section SubscriptionsFacts.

Import Num Store Subscriptions.

Variable JSON_parse : string -> result CreateSubscriptionRequest.t.
Variable toISOString : Z -> string.
Variable localeCompare : string -> string -> Z.

Local Abbreviation fetchAndStoreWeather :=
  (fetchAndStoreWeather toISOString localeCompare).
Local Abbreviation createSubscription :=
  (createSubscription JSON_parse toISOString localeCompare).

(** [fetchAndStoreWeather] never touches the table of subscriptions, and
    the weather table is as before or has one more item, for the
    subscription. *)
Lemma fetchAndStoreWeather_tables (env : Env)
    (subscription : LocationSubscription.t) (w : World) :
  let w' := snd (fetchAndStoreWeather env subscription w) in
  subscriptions w' = subscriptions w /\
  (weather w' = weather w \/
   exists item,
     weather w' = <[WeatherData.id item := item]> (weather w) /\
     WeatherData.subscriptionId item = LocationSubscription.id subscription).
Proof.
  unfold Subscriptions.fetchAndStoreWeather, fetch_ok, bind, emit, lift,
    send, ret, throw. simpl.
  destruct (fetch_current env subscription) as [[ok1 st1 js1]|e1]; simpl;
    [|by split; [|left]].
  destruct ok1; simpl; [|by split; [|left]].
  destruct js1 as [cur|e]; simpl; [|by split; [|left]].
  destruct (fetch_forecast env subscription) as [[ok2 st2 js2]|e2]; simpl;
    [|by split; [|left]].
  destruct ok2; simpl; [|by split; [|left]].
  destruct js2 as [fc|e]; simpl; [|by split; [|left]].
  destruct (dbFault env _); simpl; [by split; [|left]|].
  split; [done|]. right.
  by exists (weather_item toISOString env subscription cur
               (Forecast.processForecastData toISOString localeCompare fc)).
Qed.

Lemma fields_missing_zero (request : CreateSubscriptionRequest.t)
    (q : QArith_base.Q) :
  QArith_base.Qeq q (QArith_base.Qmake 0 1) ->
  CreateSubscriptionRequest.latitude request = Some (Finite q) \/
  CreateSubscriptionRequest.longitude request = Some (Finite q) ->
  fields_missing request = true.
Proof.
  intros Hq Hz. unfold fields_missing.
  assert (Hnz : nonzero (Finite q) = false).
  { simpl. apply negb_false_iff. by apply QArith_base.Qeq_bool_iff. }
  destruct (truthy _); [|done].
  destruct Hz as [-> | ->].
  - destruct (CreateSubscriptionRequest.longitude request); [|done].
    by rewrite Hnz.
  - destruct (CreateSubscriptionRequest.latitude request); [|done].
    by rewrite Hnz, andb_false_r.
Qed.

(** X18. A subscription on the equator or on the prime meridian cannot be
    created: a request whose latitude or longitude is the number zero is
    answered 400 [Missing required fields], and nothing is stored,
    fetched or sent. *)
Theorem zero_coordinate_rejected (env : Env) (event : APIGatewayProxyEvent)
    (user b : string) (request : CreateSubscriptionRequest.t)
    (q : QArith_base.Q) (w : World) :
  truthy (eventBody event) = Some b ->
  JSON_parse b = Ok request ->
  QArith_base.Qeq q (QArith_base.Qmake 0 1) ->
  CreateSubscriptionRequest.latitude request = Some (Finite q) \/
  CreateSubscriptionRequest.longitude request = Some (Finite q) ->
  createSubscription env event user w =
    (Ok (respond 400
           (Message "Missing required fields: location, latitude, longitude")),
     w).
Proof.
  intros Hb Hp Hq Hz. unfold Subscriptions.createSubscription.
  rewrite Hb. unfold bind, lift. rewrite Hp. simpl.
  by rewrite (fields_missing_zero request q Hq Hz).
Qed.

(** X19. Creating a subscription does not depend on the weather: once
    the request is complete and the table takes the item, the answer is
    201 with the subscription, owned by the caller and stored under its
    UUID, whatever OpenWeatherMap answers and whether or not the weather
    table takes the first weather record. *)
Theorem create_succeeds_whatever_the_weather (env : Env)
    (event : APIGatewayProxyEvent) (user b : string)
    (request : CreateSubscriptionRequest.t) (w : World) :
  truthy (eventBody event) = Some b ->
  JSON_parse b = Ok request ->
  fields_missing request = false ->
  dbFault env (PutSubscription (new_subscription env user request)) = None ->
  let subscription := new_subscription env user request in
  exists w',
    createSubscription env event user w =
      (Ok (respond 201 (OneSubscription subscription)), w') /\
    LocationSubscription.userId subscription = user /\
    subscriptions w' = <[uuid env := subscription]> (subscriptions w).
Proof.
  intros Hb Hp Hfields Hf subscription.
  unfold Subscriptions.createSubscription.
  rewrite Hb. unfold bind at 1. unfold lift. rewrite Hp. simpl.
  rewrite Hfields. unfold bind at 1. unfold send. rewrite Hf. simpl.
  fold subscription.
  set (w1 := {| subscriptions := _; weather := _; io := _ |}).
  pose proof (fetchAndStoreWeather_tables env subscription w1) as [Hsub _].
  unfold bind, try_catch, emit, ret.
  destruct (fetchAndStoreWeather env subscription w1) as [[[]|e] w2];
    simpl in *; eexists; (split; [reflexivity|]); (split; [done|]);
    simpl; by rewrite Hsub.
Qed.

Lemma elem_of_by_user (u : string) (m : gmap string LocationSubscription.t)
    (x : LocationSubscription.t) :
  x ∈ by_user u m <->
  exists k, m !! k = Some x /\ LocationSubscription.userId x = u.
Proof.
  unfold by_user. rewrite list_elem_of_fmap. split.
  - intros ([k x'] & -> & Hin). apply elem_of_map_to_list in Hin.
    apply map_lookup_filter_Some in Hin as [Hk HP]. eauto.
  - intros (k & Hk & HP). exists (k, x). split; [done|].
    apply elem_of_map_to_list. by apply map_lookup_filter_Some.
Qed.

(** X20. [listSubscriptions] answers with exactly the subscriptions of
    the caller and leaves both tables as they were. *)
Theorem list_returns_own_subscriptions (env : Env) (user : string)
    (w : World) :
  dbFault env (QueryUserIdIndex user) = None ->
  exists items,
    listSubscriptions env user w =
      (Ok (respond 200 (Store.Subscriptions items)),
       logged w [DbSend (QueryUserIdIndex user)]) /\
    forall x, x ∈ items <->
              exists k, subscriptions w !! k = Some x /\
                        LocationSubscription.userId x = user.
Proof.
  intros Hf. unfold listSubscriptions, bind, send, ret. rewrite Hf. simpl.
  eexists. split; [reflexivity|]. intros x. apply elem_of_by_user.
Qed.

(** What [deleteSubscription] does, case by case. *)
Lemma deleteSubscription_run (env : Env) (event : APIGatewayProxyEvent)
    (user : string) (w : World) :
  deleteSubscription env event user w =
    match truthy (pathParameters_id event) with
    | None => (Ok (respond 400 (Message "Subscription ID is required")), w)
    | Some k =>
        match dbFault env (GetSubscription k) with
        | Some e => (Throw e, logged w [DbSend (GetSubscription k)])
        | None =>
            match subscriptions w !! k with
            | None => (Ok (respond 404 (Message "Subscription not found")),
                       logged w [DbSend (GetSubscription k)])
            | Some item =>
                if negb (String.eqb (LocationSubscription.userId item) user)
                then (Ok (respond 403 (Message "Forbidden")),
                      logged w [DbSend (GetSubscription k)])
                else
                  let sent := [DbSend (GetSubscription k);
                               DbSend (DeleteSubscription k)] in
                  match dbFault env (DeleteSubscription k) with
                  | Some e => (Throw e, logged w sent)
                  | None =>
                      (Ok (respond 200
                             (Message "Subscription deleted successfully")),
                       {| subscriptions := delete k (subscriptions w);
                          weather := weather w;
                          io := io w ++ sent |})
                  end
            end
        end
    end.
Proof.
  unfold deleteSubscription, bind, send, ret, logged. simpl.
  destruct (truthy _) as [k|]; [|done].
  destruct (dbFault env (GetSubscription k)); [done|]. simpl.
  destruct (subscriptions w !! k) as [item|]; simpl; [|done].
  destruct (negb _); [done|]. simpl.
  destruct (dbFault env (DeleteSubscription k)); simpl;
    by rewrite <- app_assoc.
Qed.

(** X21. Deleting is not idempotent: the owner's first delete answers 200
    and removes that one subscription, the other keys holding what they
    held; the same request again answers 404 [Subscription not found]
    and changes nothing. *)
Theorem delete_then_not_found (env env' : Env) (event : APIGatewayProxyEvent)
    (user k : string) (item : LocationSubscription.t) (w : World) :
  truthy (pathParameters_id event) = Some k ->
  healthy env -> healthy env' ->
  subscriptions w !! k = Some item ->
  LocationSubscription.userId item = user ->
  exists w1,
    deleteSubscription env event user w =
      (Ok (respond 200 (Message "Subscription deleted successfully")), w1) /\
    subscriptions w1 !! k = None /\
    (forall k', k' <> k -> subscriptions w1 !! k' = subscriptions w !! k') /\
    deleteSubscription env' event user w1 =
      (Ok (respond 404 (Message "Subscription not found")),
       logged w1 [DbSend (GetSubscription k)]).
Proof.
  intros Hid Hf Hf' Hitem Hown.
  rewrite deleteSubscription_run, Hid, !Hf, Hitem, Hown, String.eqb_refl.
  simpl. eexists. split; [reflexivity|]. simpl.
  rewrite lookup_delete_eq. split; [done|]. split.
  - intros k' Hne. by rewrite lookup_delete_ne.
  - rewrite deleteSubscription_run, Hid, !Hf'. simpl.
    by rewrite lookup_delete_eq.
Qed.

(** X22. A subscription of another user cannot be deleted: the answer is
    403 [Forbidden] after the one lookup, and both tables are as before. *)
Theorem delete_forbidden_for_others (env : Env) (event : APIGatewayProxyEvent)
    (user k : string) (item : LocationSubscription.t) (w : World) :
  truthy (pathParameters_id event) = Some k ->
  dbFault env (GetSubscription k) = None ->
  subscriptions w !! k = Some item ->
  LocationSubscription.userId item <> user ->
  deleteSubscription env event user w =
    (Ok (respond 403 (Message "Forbidden")),
     logged w [DbSend (GetSubscription k)]).
Proof.
  intros Hid Hf Hitem Hown.
  rewrite deleteSubscription_run, Hid, Hf, Hitem.
  by apply String.eqb_neq in Hown as ->.
Qed.

(** What the weather handler does, case by case. *)
Lemma weather_handler_run (env : Env) (event : APIGatewayProxyEvent)
    (w : World) :
  let w0 := logged w [ConsoleLog "Event:"] in
  let failed e w' :=
    (Ok (Weather.respond 500 (Failure "Internal server error"
                                      (message_of e))),
     logged w' [ConsoleError "Error:" e]) in
  Weather.handler env event w =
    match truthy (claims_sub event) with
    | None => (Ok (Weather.respond 401 (Message "Unauthorized")), w0)
    | Some user =>
        match truthy (pathParameters_subscriptionId event) with
        | None =>
            (Ok (Weather.respond 400 (Message "Subscription ID is required")),
             w0)
        | Some k =>
            let w1 := logged w0 [DbSend (GetSubscription k)] in
            match dbFault env (GetSubscription k) with
            | Some e => failed e w1
            | None =>
                match subscriptions w !! k with
                | None =>
                    (Ok (Weather.respond 404
                           (Message "Subscription not found")), w1)
                | Some item =>
                    if negb (String.eqb (LocationSubscription.userId item)
                                        user)
                    then (Ok (Weather.respond 403 (Message "Forbidden")), w1)
                    else
                      let w2 := logged w1 [DbSend (QueryLatestWeather k)] in
                      match dbFault env (QueryLatestWeather k) with
                      | Some e => failed e w2
                      | None =>
                          match newest (by_subscription k (weather w)) with
                          | None =>
                              (Ok (Weather.respond 404
                                     (Message
                                        "No weather data available yet")),
                               w2)
                          | Some weatherData =>
                              (Ok (Weather.respond 200
                                     (WeatherReport
                                        (Weather.current_of weatherData)
                                        (default []
                                           (WeatherData.forecast
                                              weatherData)))), w2)
                          end
                      end
                end
            end
        end
    end.
Proof.
  unfold Weather.handler, try_catch, bind, emit, send, ret, logged. simpl.
  destruct (truthy (claims_sub event)) as [user|]; [|done].
  destruct (truthy (pathParameters_subscriptionId event)) as [k|]; [|done].
  destruct (dbFault env (GetSubscription k)); [done|]. simpl.
  destruct (subscriptions w !! k) as [item|]; simpl; [|done].
  destruct (negb _); [done|]. simpl.
  destruct (dbFault env (QueryLatestWeather k)); [done|]. simpl.
  by destruct (newest _).
Qed.

(** X23. The weather of somebody else's subscription is never given out:
    when the subscription is owned by another user the answer is 403
    [Forbidden], and when there is no such subscription it is 404; in
    both cases the weather table is not even queried. *)
Theorem weather_requires_ownership (env : Env) (event : APIGatewayProxyEvent)
    (user k : string) (w : World) :
  truthy (claims_sub event) = Some user ->
  truthy (pathParameters_subscriptionId event) = Some k ->
  dbFault env (GetSubscription k) = None ->
  (forall item, subscriptions w !! k = Some item ->
                LocationSubscription.userId item <> user) ->
  exists r,
    Weather.handler env event w =
      (Ok r, logged w [ConsoleLog "Event:"; DbSend (GetSubscription k)]) /\
    (statusCode r = 403%Z \/ statusCode r = 404%Z) /\
    (statusCode r = 404%Z <-> subscriptions w !! k = None).
Proof.
  intros Hu Hk Hf Hown. rewrite weather_handler_run, Hu, Hk, Hf.
  unfold logged. simpl. rewrite <- app_assoc. simpl.
  destruct (subscriptions w !! k) as [item|] eqn:Hitem.
  - specialize (Hown item eq_refl). apply String.eqb_neq in Hown as ->.
    simpl. eexists. split; [reflexivity|]. split; [by left|]. done.
  - eexists. split; [reflexivity|]. split; [by right|]. done.
Qed.

(** X24. The weather data outlives its subscription: deleting a
    subscription never touches the weather table, and afterwards the
    weather handler answers the former owner 404 [Subscription not found]
    although the records are still stored. *)
Theorem deleted_subscription_keeps_weather (env env' : Env)
    (delete_event get_event : APIGatewayProxyEvent) (user k : string)
    (item : LocationSubscription.t) (w : World) :
  truthy (pathParameters_id delete_event) = Some k ->
  truthy (claims_sub get_event) = Some user ->
  truthy (pathParameters_subscriptionId get_event) = Some k ->
  healthy env -> healthy env' ->
  subscriptions w !! k = Some item ->
  LocationSubscription.userId item = user ->
  exists r1 w1 w2,
    deleteSubscription env delete_event user w = (Ok r1, w1) /\
    statusCode r1 = 200%Z /\
    weather w1 = weather w /\
    Weather.handler env' get_event w1 =
      (Ok (Weather.respond 404 (Message "Subscription not found")), w2) /\
    weather w2 = weather w.
Proof.
  intros Hid Hu Hk Hf Hf' Hitem Hown.
  rewrite deleteSubscription_run, Hid, !Hf, Hitem, Hown, String.eqb_refl.
  simpl. eexists _, _, _. split; [reflexivity|]. split; [done|].
  split; [done|].
  rewrite weather_handler_run, Hu, Hk, !Hf'. simpl.
  rewrite lookup_delete_eq. done.
Qed.

(** X25. When both requests to OpenWeatherMap succeed and the table takes
    the item, [fetchAndStoreWeather] stores one weather record for the
    subscription: it carries the id of the subscription, a forecast of at
    most five days, and a [ttl] thirty days (2592000 s) after the second
    of the fetch; the table of subscriptions is as before. *)
Theorem fetched_weather_is_stored (env : Env)
    (subscription : LocationSubscription.t) (s1 s2 : Z)
    (current : Owm.Current.t) (entries : list Owm.Entry.t) (w : World) :
  fetch_current env subscription
    = Ok {| ok := true; status := s1; json := Ok current |} ->
  fetch_forecast env subscription
    = Ok {| ok := true; status := s2; json := Ok entries |} ->
  healthy env ->
  let key := LocationSubscription.id subscription in
  exists item days w',
    fetchAndStoreWeather env subscription w = (Ok tt, w') /\
    weather w' = <[weather_uuid env key := item]> (weather w) /\
    subscriptions w' = subscriptions w /\
    WeatherData.subscriptionId item = key /\
    WeatherData.ttl item = Some (fetchedMs env key / 1000 + 2592000)%Z /\
    WeatherData.forecast item = Some days /\ (length days <= 5)%nat.
Proof.
  intros Hc Hf Hdb key.
  unfold Subscriptions.fetchAndStoreWeather, fetch_ok, bind, emit, lift,
    send, ret, throw. simpl. rewrite Hc. simpl. rewrite Hf. simpl.
  rewrite Hdb. simpl. eexists _, _, _. split; [reflexivity|]. simpl.
  split; [reflexivity|]. split; [done|]. split; [done|]. split; [done|].
  split; [reflexivity|].
  unfold Forecast.processForecastData. rewrite length_take. lia.
Qed.

(** X26. When the request for the current weather fails (the request is
    rejected, the answer is not [ok], or its body is no JSON),
    [fetchAndStoreWeather] throws at once: the forecast is not requested
    and nothing is sent to the tables. For an answer that is not [ok] the
    error names the HTTP status. *)
Theorem failed_request_stores_nothing (env : Env)
    (subscription : LocationSubscription.t) (w : World) :
  (forall r, fetch_current env subscription = Ok r ->
             ok r = false \/ exists e, json r = Throw e) ->
  exists e,
    fetchAndStoreWeather env subscription w =
      (Throw e,
       logged w
         [ConsoleLog ("Fetching weather for "
                      +:+ LocationSubscription.location subscription);
          Fetch "weather" (LocationSubscription.latitude subscription)
                (LocationSubscription.longitude subscription)]) /\
    forall r, fetch_current env subscription = Ok r -> ok r = false ->
      e = Error ("OpenWeatherMap API error: " +:+ show (status r)).
Proof.
  intros Hfail.
  unfold Subscriptions.fetchAndStoreWeather, fetch_ok, bind, emit, lift,
    send, ret, throw, logged. simpl.
  destruct (fetch_current env subscription) as [[ok1 st1 js1]|e1]; simpl.
  - destruct (Hfail _ eq_refl) as [Hok|[e He]]; simpl in *.
    + subst ok1. simpl. eexists. rewrite <- app_assoc.
      split; [reflexivity|]. by intros r [= <-] _.
    + subst js1. destruct ok1; simpl; eexists; rewrite <- app_assoc;
        (split; [reflexivity|]).
      * by intros r [= <-] [=].
      * by intros r [= <-] _.
  - eexists. rewrite <- app_assoc. split; [reflexivity|]. by intros r [=].
Qed.

End SubscriptionsFacts.

(** ** The latest weather record and the scheduled fetch *)

Section LatestFacts.

Import Num Store.

Lemma ascii_compare_lt (a b : ascii) :
  Ascii.compare a b = Lt <-> (N_of_ascii a < N_of_ascii b)%N.
Proof. unfold Ascii.compare. apply N.compare_lt_iff. Qed.

Lemma string_compare_refl (s : string) : String.compare s s = Eq.
Proof.
  induction s as [|a s IH]; simpl; [done|].
  unfold Ascii.compare. by rewrite N.compare_refl.
Qed.

Lemma string_lt_trans (a b c : string) :
  String.compare a b = Lt -> String.compare b c = Lt ->
  String.compare a c = Lt.
Proof.
  revert b c. induction a as [|x a IH]; intros [|y b] [|z c]; simpl;
    try done.
  destruct (Ascii.compare x y) eqn:Exy; [| |done].
  - apply Ascii.compare_eq_iff in Exy as ->.
    destruct (Ascii.compare y z); [|done|done]. apply IH.
  - intros _. destruct (Ascii.compare y z) eqn:Eyz; [| |done].
    + apply Ascii.compare_eq_iff in Eyz as <-. by rewrite Exy.
    + intros _.
      pose proof (proj1 (ascii_compare_lt x y) Exy) as Hxy.
      pose proof (proj1 (ascii_compare_lt y z) Eyz) as Hyz.
      assert (Hxz : Ascii.compare x z = Lt) by (apply ascii_compare_lt; lia).
      by rewrite Hxz.
Qed.

Lemma ltb_irrefl (s : string) : String.ltb s s = false.
Proof. unfold String.ltb. by rewrite string_compare_refl. Qed.

Lemma ltb_trans (a b c : string) :
  String.ltb a b = true -> String.ltb b c = true -> String.ltb a c = true.
Proof.
  unfold String.ltb. intros Hab Hbc.
  destruct (String.compare a b) eqn:E1; try done.
  destruct (String.compare b c) eqn:E2; try done.
  by rewrite (string_lt_trans a b c E1 E2).
Qed.

(** [newest] gives an item of the list that none is strictly after. *)
Lemma newest_spec (l : list WeatherData.t) :
  match newest l with
  | None => l = []
  | Some r =>
      r ∈ l /\
      forall x, x ∈ l ->
        String.ltb (WeatherData.timestamp r) (WeatherData.timestamp x) = false
  end.
Proof.
  unfold newest.
  set (pick := fun best x =>
     match best with
     | None => Some x
     | Some b =>
         if String.ltb (WeatherData.timestamp b) (WeatherData.timestamp x)
         then Some x else Some b
     end).
  assert (H : forall l seen b,
             b ∈ seen ->
             (forall x, x ∈ seen ->
                String.ltb (WeatherData.timestamp b) (WeatherData.timestamp x)
                = false) ->
             match fold_left pick l (Some b) with
             | None => False
             | Some r =>
                 r ∈ (seen ++ l)%list /\
                 forall x, x ∈ (seen ++ l)%list ->
                   String.ltb (WeatherData.timestamp r)
                              (WeatherData.timestamp x) = false
             end).
  { clear l. intros l.
    induction l as [|y l IH]; intros seen b Hb Hmax; simpl.
    - rewrite app_nil_r. done.
    - replace (seen ++ y :: l)%list with ((seen ++ [y]) ++ l)%list
        by (by rewrite <- app_assoc).
      destruct (String.ltb (WeatherData.timestamp b)
                           (WeatherData.timestamp y)) eqn:E.
      + apply IH.
        * apply elem_of_app. right. by left.
        * intros x [Hx|Hx]%elem_of_app.
          -- destruct (String.ltb (WeatherData.timestamp y)
                                  (WeatherData.timestamp x)) eqn:E'; [|done].
             rewrite <- (Hmax x Hx). symmetry. by eapply ltb_trans.
          -- apply list_elem_of_singleton in Hx as ->. apply ltb_irrefl.
      + apply IH.
        * apply elem_of_app. by left.
        * intros x [Hx|Hx]%elem_of_app; [auto|].
          by apply list_elem_of_singleton in Hx as ->. }
  destruct l as [|y l]; simpl; [done|].
  specialize (H l [y] y). simpl in H.
  destruct (fold_left pick l (Some y)) as [r|]; [|exfalso]; apply H.
  - by left.
  - intros x Hx. apply list_elem_of_singleton in Hx as ->. apply ltb_irrefl.
  - by left.
  - intros x Hx. apply list_elem_of_singleton in Hx as ->. apply ltb_irrefl.
Qed.

Lemma elem_of_by_subscription (k : string) (m : gmap string WeatherData.t)
    (x : WeatherData.t) :
  x ∈ by_subscription k m <->
  exists i, m !! i = Some x /\ WeatherData.subscriptionId x = k.
Proof.
  unfold by_subscription. rewrite list_elem_of_fmap. split.
  - intros ([i x'] & -> & Hin). apply elem_of_map_to_list in Hin.
    apply map_lookup_filter_Some in Hin as [Hk HP]. eauto.
  - intros (i & Hk & HP). exists (i, x). split; [done|].
    apply elem_of_map_to_list. by apply map_lookup_filter_Some.
Qed.

(** X27. To the owner of a subscription the weather handler answers with
    the newest record of that subscription: 404 [No weather data
    available yet] exactly when the weather table has no record for it,
    and otherwise 200 with the fields of a stored record of that
    subscription whose [timestamp] no other record of the subscription
    exceeds, and with the forecast of that record. *)
Theorem weather_answers_newest_record (env : Env)
    (event : APIGatewayProxyEvent) (user k : string)
    (item : LocationSubscription.t) (w : World) :
  truthy (claims_sub event) = Some user ->
  truthy (pathParameters_subscriptionId event) = Some k ->
  healthy env ->
  subscriptions w !! k = Some item ->
  LocationSubscription.userId item = user ->
  exists r w',
    Weather.handler env event w = (Ok r, w') /\
    weather w' = weather w /\
    ((statusCode r = 404%Z /\
      forall i x, weather w !! i = Some x ->
                  WeatherData.subscriptionId x <> k) \/
     (exists record i,
        r = Weather.respond 200
              (WeatherReport (Weather.current_of record)
                 (default [] (WeatherData.forecast record))) /\
        weather w !! i = Some record /\
        WeatherData.subscriptionId record = k /\
        forall j x, weather w !! j = Some x ->
                    WeatherData.subscriptionId x = k ->
                    String.ltb (WeatherData.timestamp record)
                               (WeatherData.timestamp x) = false)).
Proof.
  intros Hu Hk Hf Hitem Hown.
  rewrite weather_handler_run, Hu, Hk, !Hf, Hitem, Hown, String.eqb_refl.
  simpl. pose proof (newest_spec (by_subscription k (weather w))) as Hnew.
  destruct (newest _) as [record|].
  - destruct Hnew as [Hin Hmax].
    apply elem_of_by_subscription in Hin as (i & Hi & Hsub).
    eexists _, _. split; [reflexivity|]. split; [done|]. right.
    exists record, i. split; [done|]. split; [done|]. split; [done|].
    intros j x Hj Hx. apply Hmax. apply elem_of_by_subscription. eauto.
  - eexists _, _. split; [reflexivity|]. split; [done|]. left.
    split; [done|]. intros i x Hi Hx.
    assert (Hin : x ∈ by_subscription k (weather w)).
    { apply elem_of_by_subscription. eauto. }
    rewrite Hnew in Hin. by apply elem_of_nil in Hin.
Qed.

End LatestFacts.

Section ScheduledFacts.

Import Num Store.

Variable toISOString : Z -> string.
Variable localeCompare : string -> string -> Z.

Local Abbreviation fetchAndStoreWeather :=
  (WeatherFetch.fetchAndStoreWeather toISOString localeCompare).
Local Abbreviation all_settled :=
  (WeatherFetch.all_settled toISOString localeCompare).

(** One subscription of the scheduled fetch: the call returns, and it
    writes nothing but the key of its own weather record. *)
Lemma scheduled_fetch_frame (env : Env)
    (subscription : LocationSubscription.t) (w : World) :
  exists w',
    fetchAndStoreWeather env subscription w = (Ok tt, w') /\
    subscriptions w' = subscriptions w /\
    forall i, i <> weather_uuid env (LocationSubscription.id subscription) ->
              weather w' !! i = weather w !! i.
Proof.
  unfold WeatherFetch.fetchAndStoreWeather, try_catch,
    Subscriptions.fetchAndStoreWeather, Subscriptions.fetch_ok,
    bind, emit, lift, send, ret, throw. simpl.
  destruct (fetch_current env subscription) as [[ok1 st1 js1]|e1]; simpl;
    [|by eexists].
  destruct ok1; simpl; [|by eexists].
  destruct js1 as [cur|e]; simpl; [|by eexists].
  destruct (fetch_forecast env subscription) as [[ok2 st2 js2]|e2]; simpl;
    [|by eexists].
  destruct ok2; simpl; [|by eexists].
  destruct js2 as [fc|e]; simpl; [|by eexists].
  destruct (dbFault env _); simpl; [by eexists|].
  eexists. split; [reflexivity|]. split; [done|]. simpl.
  intros i Hi. by rewrite lookup_insert_ne.
Qed.

Lemma scheduled_fetch_stores (env : Env)
    (subscription : LocationSubscription.t) (s1 s2 : Z)
    (current : Owm.Current.t) (entries : list Owm.Entry.t) (w : World) :
  fetch_current env subscription
    = Ok {| ok := true; status := s1; json := Ok current |} ->
  fetch_forecast env subscription
    = Ok {| ok := true; status := s2; json := Ok entries |} ->
  (forall item, dbFault env (PutWeather item) = None) ->
  exists item,
    weather (snd (fetchAndStoreWeather env subscription w))
      !! weather_uuid env (LocationSubscription.id subscription) = Some item /\
    WeatherData.subscriptionId item = LocationSubscription.id subscription.
Proof.
  intros Hc Hf Hdb.
  unfold WeatherFetch.fetchAndStoreWeather, try_catch,
    Subscriptions.fetchAndStoreWeather, Subscriptions.fetch_ok,
    bind, emit, lift, send, ret, throw. simpl.
  rewrite Hc. simpl. rewrite Hf. simpl. rewrite Hdb. simpl.
  rewrite lookup_insert_eq. by eexists.
Qed.

Lemma all_settled_frame (env : Env) (l : list LocationSubscription.t)
    (w : World) :
  exists w',
    all_settled env l w = (Ok tt, w') /\
    subscriptions w' = subscriptions w /\
    forall i,
      i ∉ (fun s => weather_uuid env (LocationSubscription.id s)) <$> l ->
      weather w' !! i = weather w !! i.
Proof.
  revert w. induction l as [|s l IH]; intros w; simpl.
  { by eexists. }
  destruct (scheduled_fetch_frame env s w) as (w1 & Hrun & Hsub & Hframe).
  unfold bind. rewrite Hrun.
  destruct (IH w1) as (w2 & Hrun2 & Hsub2 & Hframe2).
  exists w2. split; [done|]. split; [congruence|].
  intros i Hi. apply not_elem_of_cons in Hi as [Hne Hi].
  rewrite Hframe2 by done. by apply Hframe.
Qed.

(** X28. The scheduled fetch fails only when the scan of the
    subscriptions fails, and then with the error of the scan: no failure
    of a request or of a write for a subscription makes it fail. It never
    changes the table of subscriptions. *)
Theorem scheduled_fetch_fails_only_on_scan (env : Env) (w : World) :
  exists w',
    WeatherFetch.handler toISOString localeCompare env w =
      (match dbFault env ScanSubscriptions with
       | Some e => Throw e
       | None => Ok tt
       end, w') /\
    subscriptions w' = subscriptions w.
Proof.
  unfold WeatherFetch.handler, try_catch, bind, emit, send, throw. simpl.
  destruct (dbFault env ScanSubscriptions) as [e|]; simpl; [by eexists|].
  set (l := (map_to_list (subscriptions w)).*2).
  set (w1 := {| subscriptions := _; weather := _; io := _ |}).
  destruct (all_settled_frame env l w1) as (w2 & Hrun & Hsub & _).
  rewrite Hrun. eexists. split; [reflexivity|]. simpl. by rewrite Hsub.
Qed.

Lemma all_settled_stores (env : Env) (l : list LocationSubscription.t)
    (subscription : LocationSubscription.t) (s1 s2 : Z)
    (current : Owm.Current.t) (entries : list Owm.Entry.t) (w : World) :
  NoDup ((fun s => weather_uuid env (LocationSubscription.id s)) <$> l) ->
  subscription ∈ l ->
  fetch_current env subscription
    = Ok {| ok := true; status := s1; json := Ok current |} ->
  fetch_forecast env subscription
    = Ok {| ok := true; status := s2; json := Ok entries |} ->
  (forall item, dbFault env (PutWeather item) = None) ->
  exists item,
    weather (snd (all_settled env l w))
      !! weather_uuid env (LocationSubscription.id subscription) = Some item /\
    WeatherData.subscriptionId item = LocationSubscription.id subscription.
Proof.
  intros Hnd Hin Hc Hf Hdb. revert w.
  induction l as [|s l IH]; intros w; [by apply elem_of_nil in Hin|].
  simpl in Hnd. apply NoDup_cons in Hnd as [Hhead Hnd]. simpl.
  destruct (scheduled_fetch_frame env s w) as (w1 & Hrun & _ & _).
  unfold bind. rewrite Hrun.
  apply elem_of_cons in Hin as [->|Hin]; [|by apply IH].
  destruct (all_settled_frame env l w1) as (w2 & Hrun2 & _ & Hframe2).
  rewrite Hrun2. simpl. rewrite Hframe2 by done.
  destruct (scheduled_fetch_stores env s s1 s2 current entries w Hc Hf Hdb)
    as (item & Hitem & Hsub).
  rewrite Hrun in Hitem. eauto.
Qed.

(** X29. One subscription does not hold up another in the scheduled
    fetch. When the scan succeeds, every item of the table of
    subscriptions is stored under its own id, and the UUIDs drawn for
    distinct subscriptions are distinct, then for each subscription whose
    two requests succeed a weather record of that subscription is in the
    weather table afterwards, whatever happens for the others. *)
Theorem scheduled_fetch_isolates_failures (env : Env) (k : string)
    (subscription : LocationSubscription.t) (s1 s2 : Z)
    (current : Owm.Current.t) (entries : list Owm.Entry.t) (w : World) :
  dbFault env ScanSubscriptions = None ->
  (forall item, dbFault env (PutWeather item) = None) ->
  (forall i x, subscriptions w !! i = Some x ->
               LocationSubscription.id x = i) ->
  (forall i j, weather_uuid env i = weather_uuid env j -> i = j) ->
  subscriptions w !! k = Some subscription ->
  fetch_current env subscription
    = Ok {| ok := true; status := s1; json := Ok current |} ->
  fetch_forecast env subscription
    = Ok {| ok := true; status := s2; json := Ok entries |} ->
  exists item,
    weather (snd (WeatherFetch.handler toISOString localeCompare env w))
      !! weather_uuid env k = Some item /\
    WeatherData.subscriptionId item = k.
Proof.
  intros Hscan Hdb Hwf Hinj Hk Hc Hf.
  unfold WeatherFetch.handler, try_catch, bind, emit, send, throw. simpl.
  rewrite Hscan. simpl.
  set (l := (map_to_list (subscriptions w)).*2).
  set (w1 := {| subscriptions := _; weather := _; io := _ |}).
  assert (Hin : subscription ∈ l).
  { subst l. apply list_elem_of_fmap. exists (k, subscription).
    split; [done|]. by apply elem_of_map_to_list. }
  assert (Hnd : NoDup ((fun s => weather_uuid env (LocationSubscription.id s))
                         <$> l)).
  { subst l. rewrite <- list_fmap_compose.
    assert (Heq : (fun s => weather_uuid env (LocationSubscription.id s))
                    ∘ snd <$> map_to_list (subscriptions w)
                  = weather_uuid env <$> (map_to_list (subscriptions w)).*1).
    { rewrite <- list_fmap_compose. apply list_fmap_ext.
      intros n [i x] Hix. simpl.
      apply list_elem_of_lookup_2, elem_of_map_to_list in Hix.
      by rewrite (Hwf i x Hix). }
    rewrite Heq. apply NoDup_fmap_2_strong; [|apply NoDup_fst_map_to_list].
    intros i j _ _. apply Hinj. }
  destruct (all_settled_frame env l w1) as (w2 & Hrun & _ & _).
  destruct (all_settled_stores env l subscription s1 s2 current entries w1
              Hnd Hin Hc Hf Hdb) as (item & Hitem & Hsub).
  rewrite Hrun in *. simpl in *. rewrite (Hwf k subscription Hk) in *.
  eauto.
Qed.

End ScheduledFacts.


(** ** The further properties at concrete inputs *)

Section MoreInstances.

Import Sample.


Lemma issued_expiry_is_days_ahead_one_day :
  exists info w' t,
    createToken digest parse_one_day env0 (post_event "alice" "CI") "alice"
      world0 =
      (Ok (respond 201
             (JObj [("token", JStr key_ci); ("tokenInfo", JObj info)])), w') /\
    get_field "expiresAt" info = Some (JNum 1800086400) /\
    table w' !! uuid env0 = Some t /\ expiresAt t = Some 1800086400%Z.
Proof.
  apply (issued_expiry_is_days_ahead digest parse_one_day env0
           (post_event "alice" "CI") "alice" "CI"
           {| req_name := Some "CI"; expiresInDays := Some 1%Z |} 1 world0);
    try reflexivity; [lia | exact healthy_env0].
Defined.

Lemma list_returns_own_tokens_alice :
  exists items,
    listTokens env0 "alice" world_ci =
      (Ok (respond 200 (JObj [("tokens", JArr (List.map token_view items))])),
       logged world_ci [DbSend (Dynamo.QueryUserIdIndex "alice")]) /\
    forall t, t ∈ items <->
              exists k, table world_ci !! k = Some t /\ userId t = "alice".
Proof. apply (list_returns_own_tokens env0 "alice" world_ci). reflexivity.
Defined.

Lemma issue_adds_one_token_ci :
  exists r w' t,
    createToken digest parse_name env0 (post_event "alice" "CI") "alice"
      world_bob = (Ok r, w') /\
    statusCode r = 201%Z /\
    table w' !! uuid env0 = Some t /\
    userId t = "alice" /\ revoked t = false /\
    tokenHash t = digest key_ci /\
    prefix t = "wea_Zm9vYmFy" /\
    startsWith key_ci (prefix t) = true /\
    size (table w') = S (size (table world_bob)) /\
    forall k, k <> uuid env0 -> table w' !! k = table world_bob !! k.
Proof.
  apply (issue_adds_one_token digest parse_name env0
           (post_event "alice" "CI") "alice" "CI"
           {| req_name := Some "CI"; expiresInDays := None |} world_bob);
    try reflexivity. exact healthy_env0.
Defined.

Lemma healthy_env_after (s : Z) : healthy (env_after s).
Proof. intros c. reflexivity. Defined.

Lemma bob_hash_is_not_ci (k : string) (r : ApiToken) :
  table world_bob !! k = Some r -> tokenHash r <> digest key_ci.
Proof.
  intros Hk. simpl in Hk. apply lookup_singleton_Some in Hk as [_ <-].
  discriminate.
Defined.

Lemma issued_token_expires_next_day :
  exists r1 w1,
    createToken digest parse_one_day env0 (post_event "alice" "CI") "alice"
      world_bob = (Ok r1, w1) /\
    (exists p w2,
       Authorizer.handler digest verifier (env_after 86400)
         (credential key_ci) w1 = (Ok p, w2) /\ principalId p = "alice") /\
    (exists w2,
       Authorizer.handler digest verifier (env_after 86401)
         (credential key_ci) w1 = (Throw Unauthorized, w2)).
Proof.
  destruct (issued_token_expires digest parse_one_day verifier
              env0 (env_after 86400) (post_event "alice" "CI")
              "alice" "CI" "arn:aws:execute-api:GET/weather"
              {| req_name := Some "CI"; expiresInDays := Some 1%Z |} 1
              world_bob eq_refl eq_refl eq_refl eq_refl
              ltac:(lia) ltac:(vm_compute; discriminate)
              healthy_env0 (healthy_env_after 86400) bob_hash_is_not_ci)
    as (r1 & w1 & Hrun & _ & Hlive & _).
  destruct (issued_token_expires digest parse_one_day verifier
              env0 (env_after 86401) (post_event "alice" "CI")
              "alice" "CI" "arn:aws:execute-api:GET/weather"
              {| req_name := Some "CI"; expiresInDays := Some 1%Z |} 1
              world_bob eq_refl eq_refl eq_refl eq_refl
              ltac:(lia) ltac:(vm_compute; discriminate)
              healthy_env0 (healthy_env_after 86401) bob_hash_is_not_ci)
    as (r1' & w1' & Hrun' & _ & _ & Hdead).
  rewrite Hrun in Hrun'. injection Hrun' as <- <-.
  exists r1, w1. split; [exact Hrun|]. split.
  - apply Hlive. vm_compute. discriminate.
  - apply Hdead. reflexivity.
Defined.

Lemma issue_keeps_other_keys_bob :
  let w' := snd (createToken digest parse_name env0
                   (post_event "alice" "CI") "alice" world_bob) in
  fst (validateApiKey digest env0 "wea_Ym9i" "arn" w')
    = fst (validateApiKey digest env0 "wea_Ym9i" "arn" world_bob).
Proof.
  apply (issue_keeps_other_keys digest parse_name env0 env0
           (post_event "alice" "CI") "alice" "wea_Ym9i" "arn" world_bob).
  - reflexivity.
  - discriminate.
Defined.

Lemma revoke_keeps_other_keys_bob :
  let w' := snd (revokeToken env0 (delete_event "alice" "7d4f0a52") "alice"
                   world_ci) in
  fst (validateApiKey digest env0 "wea_Ym9i" "arn" w')
    = fst (validateApiKey digest env0 "wea_Ym9i" "arn" world_ci).
Proof.
  apply (revoke_keeps_other_keys digest env0 env0
           (delete_event "alice" "7d4f0a52") "alice" "wea_Ym9i" "arn"
           world_ci).
  intros k item [= <-] Hk. vm_compute in Hk. injection Hk as <-.
  discriminate.
Defined.

Lemma issue_then_list_ci :
  let t := new_token digest env0 "alice"
             {| req_name := Some "CI"; expiresInDays := None |} in
  exists r w1 items,
    createToken digest parse_name env0 (post_event "alice" "CI") "alice"
      world_bob = (Ok r, w1) /\
    listTokens env0 "alice" w1 =
      (Ok (respond 200 (JObj [("tokens", JArr (List.map token_view items))])),
       logged w1 [DbSend (Dynamo.QueryUserIdIndex "alice")]) /\
    t ∈ items /\ has_field "tokenHash" (token_view t) = false /\
    fst (listTokens env0 "bob" w1) = fst (listTokens env0 "bob" world_bob).
Proof.
  apply (issue_then_list digest parse_name env0 env0
           (post_event "alice" "CI") "alice" "bob" "CI"
           {| req_name := Some "CI"; expiresInDays := None |} world_bob);
    try reflexivity; try exact healthy_env0. discriminate.
Defined.

Lemma unauthenticated_or_unknown_method_samples :
  Tokens.handler digest parse_name env0
    {| claims_sub := None; httpMethod := "POST"; body := Some "CI";
       pathParameters_id := None |} world_bob
    = (Ok (respond 401 (message "Unauthorized")),
       logged world_bob [ConsoleLog "Event:"]) /\
  Tokens.handler digest parse_name env0
    {| claims_sub := Some "alice"; httpMethod := "PUT"; body := Some "CI";
       pathParameters_id := None |} world_bob
    = (Ok (respond 405 (message "Method not allowed")),
       logged world_bob [ConsoleLog "Event:"]).
Proof.
  split.
  - apply (unauthenticated_or_unknown_method digest parse_name env0
             {| claims_sub := None; httpMethod := "POST"; body := Some "CI";
                pathParameters_id := None |} world_bob).
    left. reflexivity.
  - apply (unauthenticated_or_unknown_method digest parse_name env0
             {| claims_sub := Some "alice"; httpMethod := "PUT";
                body := Some "CI"; pathParameters_id := None |} world_bob).
    right. repeat split; discriminate.
Defined.

Lemma verified_cognito_token_allowed_alice :
  Authorizer.handler digest verifier env0
    (credential ("Bearer " +:+ "eyJ.alice.sig")) world_bob =
  (Ok (generatePolicy "alice" Allow "arn:aws:execute-api:GET/weather"
         (Some [("userId", "alice"); ("authType", "cognito")])),
   logged world_bob [ConsoleLog "Authorizer event:"; JwtVerify "eyJ.alice.sig";
                     ConsoleLog "Cognito token validated for user:"]).
Proof.
  apply (verified_cognito_token_allowed digest verifier env0
           "eyJ.alice.sig" "alice" "arn:aws:execute-api:GET/weather"
           world_bob).
  reflexivity.
Defined.

End MoreInstances.

Section WeatherInstances.

Import Sample Num Store.

Lemma by_code_opposite (a b : string) :
  (0 <= by_code a b)%Z -> (by_code b a <= 0)%Z.
Proof.
  unfold by_code. rewrite (String.compare_antisym b a).
  destruct (String.compare a b); simpl; lia.
Defined.

Lemma by_code_transitive (a b c : string) :
  (by_code a b <= 0)%Z -> (by_code b c <= 0)%Z -> (by_code a c <= 0)%Z.
Proof.
  unfold by_code.
  destruct (String.compare a b) eqn:Eab; [| |lia].
  - apply String.compare_eq_iff in Eab as ->. done.
  - destruct (String.compare b c) eqn:Ebc; [| |lia].
    + apply String.compare_eq_iff in Ebc as <-. rewrite Eab. lia.
    + rewrite (string_lt_trans a b c Eab Ebc). lia.
Defined.

Lemma day_20833_returned :
  day_20833 ∈ Forecast.processForecastData iso by_code entries.
Proof. apply list_elem_of_In. vm_compute. left. reflexivity. Defined.

Lemma forecast_days_sample :
  exists item, item ∈ entries /\
               Forecast.date_of iso item = WeatherForecast.date day_20833.
Proof.
  apply (proj2 (proj2 (forecast_days iso by_code entries))), day_20833_returned.
Defined.

Lemma forecast_bounds_sample :
  leb (degrees 2) (degrees 11) = true /\
  leb (degrees 2) (degrees 4) = true /\
  leb (degrees 11) (degrees 11) = true.
Proof.
  destruct (forecast_bounds iso by_code entries day_20833 day_20833_returned)
    as [Hminmax Hall].
  split; [exact Hminmax|].
  destruct (Hall (entry 1800010800 4 11 "few clouds")) as (Hmin & Hmax & _).
  - apply list_elem_of_In. right. right. left. reflexivity.
  - reflexivity.
  - split; [exact Hmin | exact Hmax].
Defined.

Lemma forecast_sorted_earliest_sample :
  StronglySorted
    (fun f g => (by_code (WeatherForecast.date f) (WeatherForecast.date g)
                 <= 0)%Z)
    (Forecast.processForecastData iso by_code entries).
Proof.
  apply (forecast_sorted_earliest iso by_code entries
           by_code_opposite by_code_transitive).
Defined.

Lemma forecast_no_day_lost_sample :
  Forecast.date_of iso (entry 1800100000 5 9 "rain")
    ∈ WeatherForecast.date
        <$> Forecast.processForecastData iso by_code entries.
Proof.
  apply (forecast_no_day_lost iso by_code entries ["20833"; "20834"]).
  - simpl. lia.
  - intros item Hin. apply list_elem_of_In in Hin. simpl in Hin.
    destruct Hin as [<-|[<-|[<-|[]]]]; apply list_elem_of_In; vm_compute; auto.
  - apply list_elem_of_In. left. reflexivity.
Defined.

Lemma zero_coordinate_rejected_quito :
  Subscriptions.createSubscription parse_place iso by_code store_env
    (store_event (Some "alice") "POST" (Some "Quito") None) "alice" places =
  (Ok (Subscriptions.respond 400
         (Message "Missing required fields: location, latitude, longitude")),
   places).
Proof.
  apply (zero_coordinate_rejected parse_place iso by_code store_env
           (store_event (Some "alice") "POST" (Some "Quito") None)
           "alice" "Quito"
           {| CreateSubscriptionRequest.location := Some "Quito";
              CreateSubscriptionRequest.latitude := Some (degrees 0);
              CreateSubscriptionRequest.longitude := Some (degrees 11);
              CreateSubscriptionRequest.city := None;
              CreateSubscriptionRequest.country := Some "NO" |}
           (QArith_base.Qmake 0 1) places);
    [reflexivity | reflexivity | reflexivity | left; reflexivity].
Defined.

Lemma create_succeeds_whatever_the_weather_bergen :
  unavailable (A := Owm.Current.t) =
    fetch_current store_env
      (Subscriptions.new_subscription store_env "alice"
         {| CreateSubscriptionRequest.location := Some "Bergen";
            CreateSubscriptionRequest.latitude := Some (degrees 60);
            CreateSubscriptionRequest.longitude := Some (degrees 11);
            CreateSubscriptionRequest.city := None;
            CreateSubscriptionRequest.country := Some "NO" |}) /\
  exists s w',
    Subscriptions.createSubscription parse_place iso by_code store_env
      (store_event (Some "alice") "POST" (Some "Bergen") None) "alice" places
      = (Ok (Subscriptions.respond 201 (OneSubscription s)), w') /\
    LocationSubscription.userId s = "alice" /\
    subscriptions w' = <[uuid store_env := s]> (subscriptions places).
Proof.
  split; [reflexivity|]. eexists.
  apply (create_succeeds_whatever_the_weather parse_place iso by_code
           store_env
           (store_event (Some "alice") "POST" (Some "Bergen") None)
           "alice" "Bergen"
           {| CreateSubscriptionRequest.location := Some "Bergen";
              CreateSubscriptionRequest.latitude := Some (degrees 60);
              CreateSubscriptionRequest.longitude := Some (degrees 11);
              CreateSubscriptionRequest.city := None;
              CreateSubscriptionRequest.country := Some "NO" |} places);
    reflexivity.
Defined.

Lemma healthy_store_env : healthy store_env.
Proof. intros c. reflexivity. Defined.

Lemma list_returns_own_subscriptions_alice :
  exists items,
    Subscriptions.listSubscriptions store_env "alice" places =
      (Ok (Subscriptions.respond 200 (Store.Subscriptions items)),
       logged places [DbSend (QueryUserIdIndex "alice")]) /\
    forall x, x ∈ items <->
              exists k, subscriptions places !! k = Some x /\
                        LocationSubscription.userId x = "alice".
Proof.
  apply (list_returns_own_subscriptions store_env "alice" places).
  reflexivity.
Defined.

Lemma delete_then_not_found_oslo :
  let event := store_event (Some "alice") "DELETE" None (Some "5ub-0510") in
  exists w1,
    Subscriptions.deleteSubscription store_env event "alice" places =
      (Ok (Subscriptions.respond 200
             (Message "Subscription deleted successfully")), w1) /\
    subscriptions w1 !! "5ub-0510" = None /\
    (forall k', k' <> "5ub-0510" ->
                subscriptions w1 !! k' = subscriptions places !! k') /\
    Subscriptions.deleteSubscription store_env event "alice" w1 =
      (Ok (Subscriptions.respond 404 (Message "Subscription not found")),
       logged w1 [DbSend (GetSubscription "5ub-0510")]).
Proof.
  apply (delete_then_not_found store_env store_env
           (store_event (Some "alice") "DELETE" None (Some "5ub-0510"))
           "alice" "5ub-0510" oslo places);
    try reflexivity; exact healthy_store_env.
Defined.

Lemma delete_forbidden_for_others_lima :
  let event := store_event (Some "alice") "DELETE" None (Some "5ub-11ma") in
  Subscriptions.deleteSubscription store_env event "alice" places =
    (Ok (Subscriptions.respond 403 (Message "Forbidden")),
     logged places [DbSend (GetSubscription "5ub-11ma")]).
Proof.
  apply (delete_forbidden_for_others store_env
           (store_event (Some "alice") "DELETE" None (Some "5ub-11ma"))
           "alice" "5ub-11ma" lima places);
    try reflexivity. discriminate.
Defined.

Lemma weather_requires_ownership_lima :
  let event := store_event (Some "alice") "GET" None (Some "5ub-11ma") in
  exists r,
    Weather.handler store_env event places =
      (Ok r, logged places [ConsoleLog "Event:";
                            DbSend (GetSubscription "5ub-11ma")]) /\
    (statusCode r = 403%Z \/ statusCode r = 404%Z) /\
    (statusCode r = 404%Z <-> subscriptions places !! "5ub-11ma" = None).
Proof.
  apply (weather_requires_ownership store_env
           (store_event (Some "alice") "GET" None (Some "5ub-11ma"))
           "alice" "5ub-11ma" places); try reflexivity.
  intros item Hitem. vm_compute in Hitem. injection Hitem as <-.
  discriminate.
Defined.

Lemma deleted_subscription_keeps_weather_oslo :
  let delete_event :=
    store_event (Some "alice") "DELETE" None (Some "5ub-0510") in
  let get_event := store_event (Some "alice") "GET" None (Some "5ub-0510") in
  exists r1 w1 w2,
    Subscriptions.deleteSubscription store_env delete_event "alice" places
      = (Ok r1, w1) /\
    statusCode r1 = 200%Z /\
    weather w1 = weather places /\
    Weather.handler store_env get_event w1 =
      (Ok (Weather.respond 404 (Message "Subscription not found")), w2) /\
    weather w2 = weather places.
Proof.
  apply (deleted_subscription_keeps_weather store_env store_env
           (store_event (Some "alice") "DELETE" None (Some "5ub-0510"))
           (store_event (Some "alice") "GET" None (Some "5ub-0510"))
           "alice" "5ub-0510" oslo places);
    try reflexivity; exact healthy_store_env.
Defined.

Lemma fetched_weather_is_stored_oslo :
  exists item days w',
    Subscriptions.fetchAndStoreWeather iso by_code store_env oslo places
      = (Ok tt, w') /\
    weather w' = <["w-5ub-0510" := item]> (weather places) /\
    subscriptions w' = subscriptions places /\
    WeatherData.subscriptionId item = "5ub-0510" /\
    WeatherData.ttl item = Some 1802592000%Z /\
    WeatherData.forecast item = Some days /\ (length days <= 5)%nat.
Proof.
  apply (fetched_weather_is_stored iso by_code store_env oslo 200 200
           current_sample entries places);
    [reflexivity | reflexivity | exact healthy_store_env].
Defined.

Lemma failed_request_stores_nothing_lima :
  exists e,
    Subscriptions.fetchAndStoreWeather iso by_code store_env lima places =
      (Throw e,
       logged places
         [ConsoleLog "Fetching weather for Lima";
          Fetch "weather" (degrees (-12)) (degrees (-77))]) /\
    e = Error "OpenWeatherMap API error: 503".
Proof.
  destruct (failed_request_stores_nothing iso by_code store_env lima places)
    as (e & Hrun & Hstatus).
  - intros r [= <-]. left. reflexivity.
  - exists e. split; [exact Hrun|].
    apply (Hstatus _ eq_refl eq_refl).
Defined.

Lemma weather_answers_newest_record_oslo :
  exists r w',
    Weather.handler store_env
      (store_event (Some "alice") "GET" None (Some "5ub-0510")) places
      = (Ok r, w') /\
    r = Weather.respond 200
          (WeatherReport
             (Weather.current_of (report "w2" "2027-01-15T08:00:00.000Z"))
             []).
Proof.
  destruct (weather_answers_newest_record store_env
              (store_event (Some "alice") "GET" None (Some "5ub-0510"))
              "alice" "5ub-0510" oslo places
              eq_refl eq_refl healthy_store_env eq_refl eq_refl)
    as (r & w' & Hrun & _ & _).
  exists r, w'. split; [exact Hrun|].
  vm_compute in Hrun. injection Hrun as <- _. reflexivity.
Defined.

Lemma places_keys (i : string) (x : LocationSubscription.t) :
  subscriptions places !! i = Some x -> LocationSubscription.id x = i.
Proof.
  simpl. intros [[<- <-]|[_ H]]%lookup_insert_Some; [done|].
  by apply lookup_singleton_Some in H as [<- <-].
Defined.

Lemma weather_uuid_injective (i j : string) :
  weather_uuid store_env i = weather_uuid store_env j -> i = j.
Proof. simpl. by intros [=]. Defined.

Lemma scheduled_fetch_isolates_failures_oslo :
  fetch_current store_env lima = unavailable /\
  exists item,
    weather (snd (WeatherFetch.handler iso by_code store_env places))
      !! "w-5ub-0510" = Some item /\
    WeatherData.subscriptionId item = "5ub-0510".
Proof.
  split; [reflexivity|].
  apply (scheduled_fetch_isolates_failures iso by_code store_env "5ub-0510"
           oslo 200 200 current_sample entries places);
    try reflexivity.
  - exact places_keys.
  - exact weather_uuid_injective.
Defined.

End WeatherInstances.
